(** * sharrow.viz: the diagram builder [make_graph]

    A shallow embedding of [src/sharrow/viz.py].  [make_graph] walks a data
    tree (a graph of named datasets joined by relationships) and issues
    [add_node] / [add_edge] calls on a pygraphviz [AGraph].  The embedding
    keeps the three passes of the source apart:

    - the seeding of the [g_nodes] dictionary from the graph's nodes,
    - the collection of the parent variables from the graph's edges,
    - the emission of one node per dictionary entry (with its HTML-like
      label) and one edge per relationship.

    Python dictionaries that are iterated ([g_nodes]) are association lists
    in insertion order; the [subspaces] mapping, which is only looked up, is
    a [gmap].  A Python [set] of names is the list of its members in
    insertion order, and every iteration over it goes through [set_iter],
    the iteration order of the interpreter, which the development leaves
    open. *)

From Stdlib Require Import ZArith Ascii String.
From stdpp Require Import gmap strings pretty list fin_maps.

(** ** Errors *)

(** The exceptions raised by the statements of [make_graph] itself: the
    guard on the optional [pygraphviz] import, and the [KeyError] of a
    failed dictionary lookup, which carries the missing key; and the two
    errors that the spec gives the resolution of an edge to its
    relationship (see [_get_relationship]).  What the number formatting of
    line 19 or pygraphviz may raise inside their own code is not
    represented: an [Ok] of the model says that none of the statements of
    [make_graph] raised one of the exceptions below. *)
Inductive PyError : Type :=
  | ModuleNotFoundError (msg : string)
  | KeyError (key : string)
  | MissingRelationshipError
  | UnsupportedIndexingError (indexing : string).

Inductive result (A : Type) : Type :=
  | Ok (a : A)
  | Raise (e : PyError).
Arguments Ok {A} a.
Arguments Raise {A} e.

(** Sequencing: the first exception ends the computation. *)
#[global] Instance result_bind : MBind result := λ A B f m,
  match m with
  | Ok a => f a
  | Raise e => Raise e
  end.

Definition is_ok {A : Type} (m : result A) : bool :=
  match m with Ok _ => true | Raise _ => false end.

(** A [for] loop over [xs] that threads an accumulator and stops at the
    first exception. *)
Fixpoint for_each {A S : Type} (xs : list A) (s : S) (body : A → S → result S)
  : result S :=
  match xs with
  | [] => Ok s
  | x :: xs' => s' ← body x s; for_each xs' s' body
  end.

(** ** The data tree, as [make_graph] reads it *)

(** [rel.parent_data], [rel.parent_name], [rel.child_data], [rel.child_name]
    and [rel.indexing]. *)
Record Relationship : Type := {
  parent_data : string;
  parent_name : string;
  child_data : string;
  child_name : string;
  indexing : string;
}.

#[global] Instance Relationship_eq_dec : EqDecision Relationship.
Proof. solve_decision. Defined.

(** [datatree._graph]: the iteration [_graph.nodes] and the iteration
    [_graph.edges].  [make_graph] uses an edge only through
    [datatree._get_relationship(e)]: [edges] holds, edge by edge, the
    relationships that these calls returned.  The calls themselves, which
    may raise, are [_get_relationship] below, and [make_graph_resolving] is
    [make_graph] with the calls in place. *)
Record Graph : Type := {
  nodes : list string;
  edges : list Relationship;
}.

(** [datatree.subspaces[k].dims], listed. *)
Record Subspace : Type := {
  subspace_dims : list string;
}.

(** [root_node_name] is a name or [None]. *)
Record DataTree : Type := {
  _graph : Graph;
  subspaces : gmap string Subspace;
  root_node_name : option string;
}.

(** The truth value Python gives [datatree.root_node_name] in
    [if datatree.root_node_name:]: [None] and the empty name are false. *)
Definition truthy (o : option string) : bool :=
  match o with
  | Some r => negb (bool_decide (r = EmptyString))
  | None => false
  end.

(** [datatree.subspaces[k]], a [KeyError] when [k] is absent. *)
Definition subspace_of (dt : DataTree) (k : string) : result Subspace :=
  match subspaces dt !! k with
  | Some s => Ok s
  | None => Raise (KeyError k)
  end.

(** ** Python containers *)

(** [s.add(x)] on a set kept as the list of its members. *)
Definition set_add (x : string) (s : list string) : list string :=
  if bool_decide (x ∈ s) then s else s ++ [x].

(** One value of [g_nodes]: [{"dims": [...], "vars": set()}]. *)
Record GNode : Type := {
  dims : list string;
  vars : list string;
}.

(** [d[k] = v] on an insertion-ordered dictionary: an existing key keeps its
    position, a new key goes last. *)
Fixpoint dict_set {V : Type} (k : string) (v : V) (d : list (string * V))
  : list (string * V) :=
  match d with
  | [] => [(k, v)]
  | (k', v') :: d' =>
      if bool_decide (k' = k) then (k, v) :: d' else (k', v') :: dict_set k v d'
  end.

(** [d[k]], [None] for a missing key. *)
Fixpoint dict_get {V : Type} (k : string) (d : list (string * V)) : option V :=
  match d with
  | [] => None
  | (k', v') :: d' => if bool_decide (k' = k) then Some v' else dict_get k d'
  end.

Definition dict_keys {V : Type} (d : list (string * V)) : list string := d.*1.

(** [zip_longest(xs, ys, fillvalue=fill)]: the shorter side is padded
    with [fill]. *)
Fixpoint zip_longest (fill : string) (xs ys : list string)
  : list (string * string) :=
  match xs with
  | [] => (λ y, (fill, y)) <$> ys
  | x :: xs' =>
      match ys with
      | [] => (x, fill) :: zip_longest fill xs' []
      | y :: ys' => (x, y) :: zip_longest fill xs' ys'
      end
  end.

(** ** The pygraphviz graph

    [make_graph] only writes to the [AGraph]: the model records the
    [add_node] and [add_edge] calls with their keyword arguments, in the
    order they are issued.  [ag_nodes] and [ag_edges] are these calls, not
    the nodes and edges that pygraphviz makes of them. *)
Record NodeRec : Type := {
  node_id : string;
  label : string;
  shape : string;
  node_fontname : string;
  node_fontsize : Z;
}.

Record EdgeRec : Type := {
  tail : string;
  head : string;
  key : string;
  tailport : string;
  headport : string;
  dir : string;
  arrowhead : string;
}.

Record AGraph : Type := {
  rankdir : string;
  strict : bool;
  fontname : string;
  fontsize : Z;
  ag_nodes : list NodeRec;
  ag_edges : list EdgeRec;
}.

Definition add_node (n : NodeRec) (g : AGraph) : AGraph :=
  {| rankdir := rankdir g; strict := strict g;
     fontname := fontname g; fontsize := fontsize g;
     ag_nodes := ag_nodes g ++ [n]; ag_edges := ag_edges g |}.

Definition add_edge (e : EdgeRec) (g : AGraph) : AGraph :=
  {| rankdir := rankdir g; strict := strict g;
     fontname := fontname g; fontsize := fontsize g;
     ag_nodes := ag_nodes g; ag_edges := ag_edges g ++ [e] |}.

(** The identifiers of the nodes added to the graph, in order. *)
Definition node_ids (g : AGraph) : list string := node_id <$> ag_nodes g.

(** ** Label markup *)

Definition nl : string := String (ascii_of_nat 10) EmptyString.
Definition dq : string := String (ascii_of_nat 34) EmptyString.

Fixpoint spaces (n : nat) : string :=
  match n with
  | O => EmptyString
  | S n' => String " "%char (spaces n')
  end.

(** [name="value"]. *)
Definition attr (name value : string) : string :=
  name +:+ "=" +:+ dq +:+ value +:+ dq.

(** A triple-quoted template whose lines all sit at column [ind]: the
    newline after the opening quotes, the lines, and the indentation before
    the closing quotes. *)
Definition block (ind : nat) (lines : list string) : string :=
  nl +:+ String.concat EmptyString ((λ l, spaces ind +:+ l +:+ nl) <$> lines)
     +:+ spaces ind.

(** The rows [node_label] appends to [cells], one constructor per
    [cells.append]. *)
Inductive Row : Type :=
  | HeaderBoth                      (* DIMENSIONS | VARIABLES *)
  | HeaderDims                      (* DIMENSIONS *)
  | VarRow (_v : string)            (* empty cell | variable *)
  | DimRow (_d : string)            (* dimension | empty cell *)
  | PairRow (_d _v : string)        (* dimension | variable *)
  | SingleDimRow (_d : string).     (* dimension, one column *)

Definition td_header (sides small title : string) : string :=
  "<TD " +:+ attr "SIDES" sides +:+ "><FONT " +:+ attr "COLOR" "#999999"
    +:+ " " +:+ attr "POINT-SIZE" small +:+ ">" +:+ title +:+ "</FONT></TD>".

Definition td_empty : string := "<TD " +:+ attr "BORDER" "0" +:+ "></TD>".

Definition td_port (kind name : string) : string :=
  "<TD " +:+ attr "PORT" (kind +:+ name) +:+ " " +:+ attr "BGCOLOR" "gray95"
    +:+ ">" +:+ name +:+ "</TD>".

(** The f-string of each [cells.append]. *)
Definition render_row (small : string) (r : Row) : string :=
  match r with
  | HeaderBoth =>
      block 12 ["<TR>"; td_header "L" small "DIMENSIONS";
                td_header "R" small "VARIABLES"; "</TR>"]
  | HeaderDims =>
      block 12 ["<TR>"; td_header "LR" small "DIMENSIONS"; "</TR>"]
  | VarRow _v =>
      block 20 ["<TR>"; td_empty; td_port "var" _v; "</TR>"]
  | DimRow _d =>
      block 20 ["<TR>"; td_port "dim" _d; td_empty; "</TR>"]
  | PairRow _d _v =>
      block 20 ["<TR>"; td_port "dim" _d; td_port "var" _v; "</TR>"]
  | SingleDimRow _d =>
      block 16 ["<TR>"; td_port "dim" _d; "</TR>"]
  end.

(** The body of the loop over [zip_longest] of the dimensions and the
    variables, padded with the empty string. *)
Definition pair_row (p : string * string) : Row :=
  let '(_d, _v) := p in
  if bool_decide (_d = EmptyString) then VarRow _v
  else if bool_decide (_v = EmptyString) then DimRow _d
  else PairRow _d _v.

(** ** The interpreter and the libraries around [make_graph]

    What the source leaves to its environment:
    - whether [import pygraphviz] succeeded ([viz is None] otherwise);
    - the order in which iterating a [set] of names yields its members,
      given the members in the order they were added;
    - [repr(rel)], the [__repr__] of the relationship class;
    - the formatting [f"{fontsize * .7:.1f}"] of the small font size. *)
Record Interp : Type := {
  viz_installed : bool;
  set_iter : list string → list string;
  repr : Relationship → string;
  format_small : Z → string;
}.

(** ** [node_label] *)

(** The list [cells] at the end of [node_label], before each row is
    rendered by its f-string. *)
Definition node_rows (py : Interp) (v : GNode) : list Row :=
  if bool_decide (0 < length (dims v)) && bool_decide (0 < length (vars v)) then
    HeaderBoth
      :: (pair_row <$> zip_longest EmptyString (dims v) (set_iter py (vars v)))
  else if bool_decide (0 < length (dims v)) && bool_decide (length (vars v) = 0) then
    HeaderDims :: (SingleDimRow <$> dims v)
  else [].

Definition node_label (py : Interp) (small : string) (k : string) (v : GNode)
  : string :=
  let cells := render_row small <$> node_rows py v in
  "< <TABLE " +:+ attr "BORDER" "0" +:+ " " +:+ attr "CELLBORDER" "1" +:+ " "
    +:+ attr "CELLSPACING" "0" +:+ " >" +:+ nl
    +:+ spaces 8 +:+ "<TR><TD " +:+ attr "PORT" "f0" +:+ " "
    +:+ attr "COLSPAN" "2" +:+ " " +:+ attr "BGCOLOR" "gray80" +:+ "><B>"
    +:+ k +:+ "</B></TD></TR>" +:+ nl
    +:+ spaces 8 +:+ String.concat EmptyString cells +:+ nl
    +:+ spaces 8 +:+ "</TABLE> >".

(** [node_label_simple], the record-shaped label that [make_graph] defines
    next to [node_label] and does not call: every dimension and every
    variable gets a field, whatever the other side holds. *)
Definition node_label_simple (py : Interp) (k : string) (v : GNode) : string :=
  let dim_names := (λ i, "<dim" +:+ i +:+ ">" +:+ i) <$> dims v in
  let dim_defs := String.concat "|" dim_names in
  let var_names := (λ i, "<var" +:+ i +:+ ">" +:+ i) <$> set_iter py (vars v) in
  let var_defs := String.concat "|" var_names in
  "<f0>" +:+ k +:+ "|{{Dimensions|" +:+ dim_defs +:+ "}||{Variables|"
    +:+ var_defs +:+ "}}".

(** ** [make_graph] *)

(** [{"dims": list(datatree.subspaces[k].dims), "vars": set()}]. *)
Definition fresh_node (s : Subspace) : GNode :=
  {| dims := subspace_dims s; vars := [] |}.

(** Lines 24-28: the root is seeded when [root_node_name] is true. *)
Definition seed_root (datatree : DataTree) : result (list (string * GNode)) :=
  match root_node_name datatree with
  | Some r =>
      if truthy (Some r) then
        s ← subspace_of datatree r; Ok (dict_set r (fresh_node s) [])
      else Ok []
  | None => Ok []
  end.

(** Lines 30-35: one turn of the loop over [datatree._graph.nodes]. *)
Definition seed_node (datatree : DataTree) (k : string)
    (g_nodes : list (string * GNode)) : result (list (string * GNode)) :=
  if bool_decide (Some k = root_node_name datatree) then Ok g_nodes
  else s ← subspace_of datatree k; Ok (dict_set k (fresh_node s) g_nodes).

(** Lines 22-35. *)
Definition init_nodes (datatree : DataTree) : result (list (string * GNode)) :=
  match nodes (_graph datatree) with
  | [] => Ok []
  | _ :: _ =>
      g_nodes ← seed_root datatree;
      for_each (nodes (_graph datatree)) g_nodes (seed_node datatree)
  end.

(** Line 39: [g_nodes[rel.parent_data]["vars"].add(rel.parent_name)]. *)
Definition add_var (rel : Relationship) (g_nodes : list (string * GNode))
  : result (list (string * GNode)) :=
  match dict_get (parent_data rel) g_nodes with
  | Some v =>
      Ok (dict_set (parent_data rel)
            {| dims := dims v; vars := set_add (parent_name rel) (vars v) |}
            g_nodes)
  | None => Raise (KeyError (parent_data rel))
  end.

(** Lines 36-39. *)
Definition collect_vars (datatree : DataTree) (g_nodes : list (string * GNode))
  : result (list (string * GNode)) :=
  for_each (edges (_graph datatree)) g_nodes add_var.

(** The [g.add_node] call of lines 123-130. *)
Definition node_of (py : Interp) (fontname : string) (fontsize : Z)
    (kv : string * GNode) : NodeRec :=
  {| node_id := kv.1;
     label := node_label py (format_small py fontsize) kv.1 kv.2;
     shape := "plaintext";
     node_fontname := fontname;
     node_fontsize := fontsize |}.

(** The [g.add_edge] call of lines 136-144. *)
Definition edge_of (py : Interp) (rel : Relationship) : EdgeRec :=
  {| tail := parent_data rel;
     head := child_data rel;
     key := repr py rel;
     tailport := "var" +:+ parent_name rel;
     headport := "dim" +:+ child_name rel;
     dir := "forward";
     arrowhead :=
       if bool_decide (indexing rel = "label") then "odiamond" else "normal" |}.

Definition make_graph (py : Interp) (datatree : DataTree)
    (fontname : string) (fontsize : Z) : result AGraph :=
  if viz_installed py then
    let g := {| rankdir := "LR"; strict := false;
                fontname := fontname; fontsize := fontsize;
                ag_nodes := []; ag_edges := [] |} in
    g_nodes ← init_nodes datatree;
    g_nodes ← collect_vars datatree g_nodes;
    let g :=
      match nodes (_graph datatree) with
      | [] => g
      | _ :: _ =>
          foldl (λ g kv, add_node (node_of py fontname fontsize kv) g) g g_nodes
      end in
    let g := foldl (λ g rel, add_edge (edge_of py rel) g) g
               (edges (_graph datatree)) in
    Ok g
  else Raise (ModuleNotFoundError "pygraphviz is not installed").

(** The dictionary [g_nodes] when the second loop is over (line 39). *)
Definition g_nodes_of (datatree : DataTree) : result (list (string * GNode)) :=
  g_nodes ← init_nodes datatree; collect_vars datatree g_nodes.

(** The graph [make_graph] returns for the dictionary [g_nodes] and the
    relationships [rels]: one node per entry, one edge per relationship. *)
Definition diagram (py : Interp) (fontname : string) (fontsize : Z)
    (g_nodes : list (string * GNode)) (rels : list Relationship) : AGraph :=
  {| rankdir := "LR"; strict := false;
     fontname := fontname; fontsize := fontsize;
     ag_nodes := node_of py fontname fontsize <$> g_nodes;
     ag_edges := edge_of py <$> rels |}.

(** ** Sample interpreters and inputs *)

(** Relationships are five strings, hence countable. *)
#[global] Instance Relationship_countable : Countable Relationship :=
  inj_countable'
    (λ rel, (parent_data rel, parent_name rel, child_data rel,
             child_name rel, indexing rel))
    (λ t, let '(pd, pn, cd, cn, ix) := t in
          {| parent_data := pd; parent_name := pn; child_data := cd;
             child_name := cn; indexing := ix |})
    (λ rel, match rel with Build_Relationship _ _ _ _ _ => eq_refl end).

(** A sample [repr]: the decimal numeral of the code of the
    relationship. *)
Definition numbered_repr (rel : Relationship) : string :=
  pretty (encode rel).

(** An interpreter whose sets iterate in insertion order, and one whose
    sets iterate in the opposite order.  ["8.4"] is how Python formats
    [12 * .7], the small size of the default font size. *)
Definition py_fifo : Interp :=
  {| viz_installed := true; set_iter := λ s, s;
     repr := numbered_repr; format_small := λ _, "8.4" |}.

Definition py_lifo : Interp :=
  {| viz_installed := true; set_iter := reverse;
     repr := numbered_repr; format_small := λ _, "8.4" |}.

Definition mk_rel (pd pn cd cn ix : string) : Relationship :=
  {| parent_data := pd; parent_name := pn; child_data := cd;
     child_name := cn; indexing := ix |}.

Definition mk_tree (ns : list string) (es : list Relationship)
    (subs : list (string * list string)) (root : option string) : DataTree :=
  {| _graph := {| nodes := ns; edges := es |};
     subspaces := list_to_map ((λ p, (p.1, {| subspace_dims := p.2 |})) <$> subs);
     root_node_name := root |}.

(** Nodes [A] and [B], one relationship [A.idvar -> B.bid] by label. *)
Definition tree_AB (root : option string) : DataTree :=
  mk_tree ["A"; "B"] [mk_rel "A" "idvar" "B" "bid" "label"]
    [("A", ["id"]); ("B", ["bid"])] root.

(** The same tree with the indexing of each relationship replaced. *)
Definition with_indexing (ix : Relationship → string) (rel : Relationship)
  : Relationship :=
  {| parent_data := parent_data rel; parent_name := parent_name rel;
     child_data := child_data rel; child_name := child_name rel;
     indexing := ix rel |}.

Definition reindex (ix : Relationship → string) (datatree : DataTree)
  : DataTree :=
  {| _graph := {| nodes := nodes (_graph datatree);
                  edges := with_indexing ix <$> edges (_graph datatree) |};
     subspaces := subspaces datatree;
     root_node_name := root_node_name datatree |}.

(** [tree_AB] with an indexing the relationship class does not know. *)
Definition tree_nearest : DataTree :=
  mk_tree ["A"; "B"] [mk_rel "A" "idvar" "B" "bid" "nearest"]
    [("A", ["id"]); ("B", ["bid"])] None.

(** One relationship by label and one by position between the same two
    datasets. *)
Definition tree_parallel : DataTree :=
  mk_tree ["A"; "B"]
    [mk_rel "A" "idvar" "B" "bid" "label";
     mk_rel "A" "offset" "B" "bid" "position"]
    [("A", ["id"]); ("B", ["bid"])] (Some "A").

(** The node [k] is the root by name, yet line 24 took the root name for
    false and seeded nothing: line 30 passes [k] over all the same.  This is
    the case of the empty name. *)
Definition unseeded_root (datatree : DataTree) (k : string) : Prop :=
  root_node_name datatree = Some k ∧ truthy (root_node_name datatree) = false.

#[global] Instance unseeded_root_dec datatree k :
  Decision (unseeded_root datatree k).
Proof. unfold unseeded_root. apply _. Defined.

(** A graph whose only node, also its root, has the empty name and no
    subspace. *)
Definition tree_unnamed : DataTree := mk_tree [EmptyString] [] [] (Some EmptyString).

(** A graph node [B] without a subspace, the child of [A]. *)
Definition tree_no_subspace : DataTree :=
  mk_tree ["A"; "B"] [mk_rel "A" "idvar" "B" "bid" "label"] [("A", ["id"])]
    (Some "A").

(** Two datasets and no relationship. *)
Definition tree_isolated : DataTree :=
  mk_tree ["A"; "B"] [] [("A", ["id"]); ("B", ["bid"])] (Some "A").

(** The rows of a label below its header row: every row that shows a
    dimension or a variable. *)
Definition is_attribute_row (r : Row) : bool :=
  match r with
  | HeaderBoth | HeaderDims => false
  | VarRow _ | DimRow _ | PairRow _ _ | SingleDimRow _ => true
  end.

Definition attribute_rows (rows : list Row) : list Row :=
  filter (λ r, is_attribute_row r = true) rows.

(** The dimension, and the variable, whose port the row carries. *)
Definition row_dim (r : Row) : option string :=
  match r with
  | DimRow _d | PairRow _d _ | SingleDimRow _d => Some _d
  | HeaderBoth | HeaderDims | VarRow _ => None
  end.

Definition row_var (r : Row) : option string :=
  match r with
  | VarRow _v | PairRow _ _v => Some _v
  | HeaderBoth | HeaderDims | DimRow _ | SingleDimRow _ => None
  end.

(** A dataset [A] without dimensions whose variable [x] indexes [B]. *)
Definition tree_scalar : DataTree :=
  mk_tree ["A"; "B"] [mk_rel "A" "x" "B" "bid" "label"]
    [("A", []); ("B", ["bid"])] (Some "A").

(** ** The first loop, lookup by lookup *)

(** The keys with which lines 26 and 33 index [datatree.subspaces], in the
    order of the lookups: the root when line 24 takes it for true, then the
    nodes of the iteration that line 30 does not pass over.  Nothing is
    looked up when the graph has no node. *)
Definition lookup_order (datatree : DataTree) : list string :=
  match nodes (_graph datatree) with
  | [] => []
  | _ :: _ =>
      match root_node_name datatree with
      | Some r => if truthy (Some r) then [r] else []
      | None => []
      end
      ++ filter (λ k, Some k ≠ root_node_name datatree) (nodes (_graph datatree))
  end.

(** One lookup and the assignment that follows it (lines 25-28, 32-35). *)
Definition lookup_node (datatree : DataTree) (k : string)
    (g_nodes : list (string * GNode)) : result (list (string * GNode)) :=
  s ← subspace_of datatree k; Ok (dict_set k (fresh_node s) g_nodes).

(** A relationship whose parent [A] is not a node of the graph. *)
Definition tree_orphan : DataTree :=
  mk_tree ["B"] [mk_rel "A" "idvar" "B" "bid" "label"] [("B", ["bid"])] None.

(** A relationship from [A] to itself, and a dataset [C] nobody refers
    to. *)
Definition tree_loop : DataTree :=
  mk_tree ["A"; "C"] [mk_rel "A" "next" "A" "id" "position"]
    [("A", ["id"]); ("C", [])] None.

(** [sub] occurs in [s]. *)
Definition contains (s sub : string) : Prop :=
  ∃ pre post, s = pre +:+ sub +:+ post.

(** ** Resolving edges to relationships *)

(** The indexing values of the spec's enumeration. *)
Definition supported_indexing (ix : string) : bool :=
  bool_decide (ix = "label") || bool_decide (ix = "position").

(** Modelled from the spec: [datatree._get_relationship(e)] is defined with
    the data tree in [relationships.py], which is not among the sources.
    The spec has each edge resolve to a relationship whose indexing is the
    "enumeration {label, position}", and gives the resolution two errors:
    "MissingRelationshipError: an edge reference cannot be resolved to a
    Relationship. Fatal" and "UnsupportedIndexingError: an indexing value
    outside {label, position} is encountered. Fatal - must not silently
    default".  An edge is taken with what the graph stores for it: the five
    fields, the indexing as it was stored, or nothing. *)
Definition _get_relationship (e : option Relationship) : result Relationship :=
  match e with
  | None => Raise MissingRelationshipError
  | Some rel =>
      if supported_indexing (indexing rel) then Ok rel
      else Raise (UnsupportedIndexingError (indexing rel))
  end.

(** The data tree before any edge is resolved. *)
Record StoredTree : Type := {
  stored_nodes : list string;
  stored_edges : list (option Relationship);
  stored_subspaces : gmap string Subspace;
  stored_root : option string;
}.

(** The data tree with the relationships [rels] for its edges. *)
Definition resolved_tree (t : StoredTree) (rels : list Relationship) : DataTree :=
  {| _graph := {| nodes := stored_nodes t; edges := rels |};
     subspaces := stored_subspaces t;
     root_node_name := stored_root t |}.

(** [make_graph] with the calls of lines 37 and 133 in place: each loop
    over the edges resolves the edge before it uses the relationship. *)
Definition make_graph_resolving (py : Interp) (t : StoredTree)
    (fontname : string) (fontsize : Z) : result AGraph :=
  if viz_installed py then
    let g := {| rankdir := "LR"; strict := false;
                fontname := fontname; fontsize := fontsize;
                ag_nodes := []; ag_edges := [] |} in
    g_nodes ← init_nodes (resolved_tree t []);
    g_nodes ← for_each (stored_edges t) g_nodes
                (λ e g_nodes, rel ← _get_relationship e; add_var rel g_nodes);
    let g :=
      match stored_nodes t with
      | [] => g
      | _ :: _ =>
          foldl (λ g kv, add_node (node_of py fontname fontsize kv) g) g g_nodes
      end in
    for_each (stored_edges t) g
      (λ e g, rel ← _get_relationship e; Ok (add_edge (edge_of py rel) g))
  else Raise (ModuleNotFoundError "pygraphviz is not installed").

(** [tree_AB] before resolution, the indexing of its edge stored as
    ["nearest"]. *)
Definition stored_nearest : StoredTree :=
  {| stored_nodes := ["A"; "B"];
     stored_edges := [Some (mk_rel "A" "idvar" "B" "bid" "nearest")];
     stored_subspaces := subspaces (tree_AB None);
     stored_root := None |}.

(** ** Graphs *)


(** The root has the empty name, and [B] is a second node; both have a
    subspace. *)
Definition tree_unnamed_root : DataTree :=
  mk_tree [EmptyString; "B"] [] [(EmptyString, ["id"]); ("B", ["bid"])]
    (Some EmptyString).

(** ** Dictionaries *)

Section dict.
Context {V : Type}.
Implicit Types (d : list (string * V)) (k : string) (v : V).

Lemma dict_get_None k d : dict_get k d = None ↔ k ∉ dict_keys d.
Proof.
  unfold dict_keys. induction d as [|[k' v'] d IH]; simpl.
  - split; [intros _; apply not_elem_of_nil | done].
  - case_bool_decide as Hk.
    + split; [done | intros Hn; destruct Hn; set_solver].
    + rewrite IH, not_elem_of_cons. naive_solver.
Qed.

Lemma dict_get_Some k d v : dict_get k d = Some v → (k, v) ∈ d.
Proof.
  induction d as [|[k' v'] d IH]; simpl; [done|].
  case_bool_decide; subst.
  - intros [= ->]. set_solver.
  - set_solver.
Qed.

Lemma dict_get_is_Some k d : is_Some (dict_get k d) ↔ k ∈ dict_keys d.
Proof.
  rewrite <- not_eq_None_Some, dict_get_None.
  split; [apply dec_stable | auto].
Qed.

Lemma dict_keys_set k v d :
  dict_keys (dict_set k v d)
  = if bool_decide (k ∈ dict_keys d) then dict_keys d else dict_keys d ++ [k].
Proof.
  unfold dict_keys. induction d as [|[k' v'] d IH]; [done|].
  cbn [dict_set]. destruct (decide (k' = k)) as [->|Hne].
  - rewrite bool_decide_eq_true_2 by done. cbn.
    rewrite bool_decide_eq_true_2; [done | set_solver].
  - rewrite bool_decide_eq_false_2 by done. cbn. rewrite IH.
    destruct (decide (k ∈ d.*1)) as [Hin|Hin].
    + rewrite !bool_decide_eq_true_2; [done | set_solver | done].
    + rewrite !bool_decide_eq_false_2; [done | set_solver | done].
Qed.

Lemma dict_keys_set_present k v d :
  k ∈ dict_keys d → dict_keys (dict_set k v d) = dict_keys d.
Proof. intros. rewrite dict_keys_set. by rewrite bool_decide_eq_true_2. Qed.

Lemma dict_set_NoDup k v d :
  NoDup (dict_keys d) → NoDup (dict_keys (dict_set k v d)).
Proof.
  intros Hd. rewrite dict_keys_set. case_bool_decide; [done|].
  apply NoDup_app. split_and!; [done | | apply NoDup_singleton].
  intros x Hx ->%list_elem_of_singleton. done.
Qed.

End dict.

(** ** The two loops that build [g_nodes] *)

Section passes.
Variable datatree : DataTree.
Notation root := (root_node_name datatree).
Implicit Types (g : list (string * GNode)) (k : string).

Lemma subspace_of_Ok k s :
  subspace_of datatree k = Ok s ↔ subspaces datatree !! k = Some s.
Proof. unfold subspace_of. destruct (_ !! k); naive_solver. Qed.

Lemma subspace_of_missing k :
  subspaces datatree !! k = None → subspace_of datatree k = Raise (KeyError k).
Proof. unfold subspace_of. by intros ->. Qed.

(** One turn of the loop over the nodes: the root is passed over, any
    other node is looked up and stored. *)
Lemma seed_node_Ok k g g' :
  seed_node datatree k g = Ok g' →
  (Some k = root ∧ g' = g)
  ∨ (Some k ≠ root ∧ ∃ s, subspaces datatree !! k = Some s
                          ∧ g' = dict_set k (fresh_node s) g).
Proof.
  unfold seed_node. destruct (decide (Some k = root)) as [Heq|Hne].
  - rewrite bool_decide_eq_true_2 by done. intros [= <-]. by left.
  - rewrite bool_decide_eq_false_2 by done.
    destruct (subspace_of datatree k) as [s|e] eqn:Hs; [|done].
    apply subspace_of_Ok in Hs. cbn. intros [= <-]. right. eauto.
Qed.

Lemma seed_loop_keys ns g g' :
  for_each ns g (seed_node datatree) = Ok g' →
  (∃ rest, dict_keys g' = dict_keys g ++ rest)
  ∧ (NoDup (dict_keys g) → NoDup (dict_keys g'))
  ∧ (∀ k, k ∈ dict_keys g' ↔ k ∈ dict_keys g ∨ (k ∈ ns ∧ Some k ≠ root)).
Proof.
  revert g. induction ns as [|n ns IH]; intros g; cbn.
  - intros [= <-]. split_and!; [exists []; by rewrite app_nil_r | done |].
    intros k. set_solver.
  - destruct (seed_node datatree n g) as [g1|e] eqn:Hn; [|done]. cbn.
    intros Hloop. destruct (IH _ Hloop) as (Hpre & Hnd & Hin).
    apply seed_node_Ok in Hn as [[Hroot ->]|(Hroot & s & _ & ->)].
    + split_and!; [done | done |]. intros k. rewrite Hin.
      split; [set_solver|]. intros [?|[[->|?]%elem_of_cons ?]]; auto.
      congruence.
    + rewrite dict_keys_set in Hpre, Hin.
      split_and!.
      * destruct Hpre as [rest Hrest]. case_bool_decide.
        -- by exists rest.
        -- exists (n :: rest). rewrite Hrest. by rewrite <- app_assoc.
      * intros Hg. by apply Hnd, dict_set_NoDup.
      * intros k. rewrite Hin. case_bool_decide; set_solver.
Qed.

(** A node without a subspace stops the loop, unless it is the one the
    loop passes over. *)
Lemma seed_loop_missing ns g k :
  k ∈ ns → Some k ≠ root → subspaces datatree !! k = None →
  ∃ k', for_each ns g (seed_node datatree) = Raise (KeyError k')
        ∧ subspaces datatree !! k' = None.
Proof.
  intros Hk Hroot Hmiss. revert g.
  induction ns as [|n ns IH]; intros g; [set_solver|]. cbn.
  destruct (decide (n = k)) as [->|Hne].
  - unfold seed_node. rewrite bool_decide_eq_false_2 by done.
    rewrite subspace_of_missing by done. eauto.
  - destruct (seed_node datatree n g) as [g1|e] eqn:Hn; cbn.
    + apply IH. set_solver.
    + unfold seed_node in Hn. case_bool_decide; [done|].
      unfold subspace_of in Hn.
      destruct (subspaces datatree !! n) eqn:Hs; [done|].
      injection Hn as <-. eauto.
Qed.

Lemma seed_root_Ok g :
  seed_root datatree = Ok g →
  (truthy root = false ∧ g = [])
  ∨ (truthy root = true
     ∧ ∃ r s, root = Some r ∧ subspaces datatree !! r = Some s
              ∧ g = [(r, fresh_node s)]).
Proof.
  unfold seed_root. destruct root as [r|] eqn:Hr; [|intros [= <-]; by left].
  destruct (truthy (Some r)) eqn:Ht; [|intros [= <-]; by left].
  destruct (subspace_of datatree r) as [s|e] eqn:Hs; [|done].
  apply subspace_of_Ok in Hs. cbn. intros [= <-]. right. eauto 6.
Qed.

(** The keys of [g_nodes] after the first loop. *)
Lemma init_nodes_keys g :
  init_nodes datatree = Ok g →
  NoDup (dict_keys g)
  ∧ (∀ k, k ∈ dict_keys g ↔
          nodes (_graph datatree) ≠ []
          ∧ ((truthy root = true ∧ root = Some k)
             ∨ (k ∈ nodes (_graph datatree) ∧ Some k ≠ root)))
  ∧ (∀ r, truthy root = true → root = Some r →
          nodes (_graph datatree) ≠ [] →
          ∃ s rest, subspaces datatree !! r = Some s
                    ∧ seed_root datatree = Ok [(r, fresh_node s)]
                    ∧ dict_keys g = r :: rest).
Proof.
  unfold init_nodes. destruct (nodes (_graph datatree)) as [|n ns] eqn:Hns.
  - intros [= <-]. split_and!; [constructor | set_solver | done].
  - destruct (seed_root datatree) as [g0|e] eqn:H0; [|done]. cbn.
    intros Hloop.
    apply (seed_loop_keys (n :: ns)) in Hloop as (Hpre & Hnd & Hin).
    apply seed_root_Ok in H0 as Hroot.
    destruct Hroot as [[Ht ->]|(Ht & r & s & Hr & Hs & ->)].
    + split_and!.
      * apply Hnd. constructor.
      * intros k. rewrite Hin, Ht. set_solver.
      * intros r. by rewrite Ht.
    + split_and!.
      * apply Hnd. apply NoDup_singleton.
      * intros k. rewrite Hin. cbn. rewrite list_elem_of_singleton.
        split.
        -- intros [->|?]; (split; [done|]); auto.
        -- intros [_ [[_ Hk]|?]]; [left; congruence | by right].
      * intros r' _ Hr' _. rewrite Hr in Hr'. injection Hr' as <-.
        destruct Hpre as [rest Hrest]. exists s, rest.
        split_and!; [done | done | by rewrite Hrest].
Qed.

(** The second loop touches the value of an existing key only. *)
Lemma add_var_keys rel g g' :
  add_var rel g = Ok g' → dict_keys g' = dict_keys g.
Proof.
  unfold add_var. destruct (dict_get (parent_data rel) g) eqn:Hget; [|done].
  intros [= <-]. apply dict_keys_set_present, dict_get_is_Some. eauto.
Qed.

Lemma add_var_loop_keys es g g' :
  for_each es g add_var = Ok g' → dict_keys g' = dict_keys g.
Proof.
  revert g. induction es as [|rel es IH]; intros g; cbn.
  - by intros [= <-].
  - destruct (add_var rel g) as [g1|e] eqn:H1; [|done]. cbn. intros Hloop.
    rewrite (IH _ Hloop). by apply add_var_keys in H1.
Qed.

(** The second loop gets through only if every parent is a key. *)
Lemma add_var_loop_parents es g g' rel :
  for_each es g add_var = Ok g' → rel ∈ es → parent_data rel ∈ dict_keys g.
Proof.
  revert g. induction es as [|rel' es IH]; intros g; cbn.
  - intros _ Hin. by apply elem_of_nil in Hin.
  - destruct (add_var rel' g) as [g1|e] eqn:H1; [|done]. cbn.
    intros Hloop [Heq|Hin]%elem_of_cons; [subst rel'|].
    + unfold add_var in H1. apply dict_get_is_Some.
      by destruct (dict_get (parent_data rel) g).
    + rewrite <- (add_var_keys _ _ _ H1). by apply IH.
Qed.

Lemma g_nodes_of_Ok gn :
  g_nodes_of datatree = Ok gn →
  ∃ g0, init_nodes datatree = Ok g0
        ∧ collect_vars datatree g0 = Ok gn
        ∧ dict_keys gn = dict_keys g0.
Proof.
  unfold g_nodes_of. destruct (init_nodes datatree) as [g0|e]; [|done]. cbn.
  intros Hc. exists g0. split_and!; [done | done |].
  by apply add_var_loop_keys in Hc.
Qed.
End passes.

(** ** The shape of the result *)

Lemma AGraph_eta g :
  g = {| rankdir := rankdir g; strict := strict g; fontname := fontname g;
         fontsize := fontsize g; ag_nodes := ag_nodes g;
         ag_edges := ag_edges g |}.
Proof. by destruct g. Qed.

Lemma foldl_add_node {A} (f : A → NodeRec) (l : list A) g :
  foldl (λ g x, add_node (f x) g) g l
  = {| rankdir := rankdir g; strict := strict g; fontname := fontname g;
       fontsize := fontsize g; ag_nodes := ag_nodes g ++ (f <$> l);
       ag_edges := ag_edges g |}.
Proof.
  revert g. induction l as [|x l IH]; intros g; cbn.
  - rewrite app_nil_r. apply AGraph_eta.
  - rewrite IH. cbn. by rewrite <- app_assoc.
Qed.

Lemma foldl_add_edge {A} (f : A → EdgeRec) (l : list A) g :
  foldl (λ g x, add_edge (f x) g) g l
  = {| rankdir := rankdir g; strict := strict g; fontname := fontname g;
       fontsize := fontsize g; ag_nodes := ag_nodes g;
       ag_edges := ag_edges g ++ (f <$> l) |}.
Proof.
  revert g. induction l as [|x l IH]; intros g; cbn.
  - rewrite app_nil_r. apply AGraph_eta.
  - rewrite IH. cbn. by rewrite <- app_assoc.
Qed.

(** Without graph nodes the dictionary stays empty. *)
Lemma g_nodes_of_no_nodes datatree gn :
  nodes (_graph datatree) = [] → g_nodes_of datatree = Ok gn → gn = [].
Proof.
  intros Hns (g0 & H0 & _ & Hkeys)%g_nodes_of_Ok.
  unfold init_nodes in H0. rewrite Hns in H0. injection H0 as <-.
  by apply fmap_nil_inv in Hkeys.
Qed.

(** [make_graph] is the pygraphviz guard, the two loops over [g_nodes],
    and the emission of [diagram]. *)
Lemma make_graph_unfold py datatree fontname fontsize :
  make_graph py datatree fontname fontsize
  = if viz_installed py then
      g_nodes ← g_nodes_of datatree;
      Ok (diagram py fontname fontsize g_nodes (edges (_graph datatree)))
    else Raise (ModuleNotFoundError "pygraphviz is not installed").
Proof.
  unfold make_graph. destruct (viz_installed py); [|done].
  destruct (g_nodes_of datatree) as [gn|e] eqn:Hgn; unfold g_nodes_of in *.
  - destruct (init_nodes datatree) as [g0|e0] eqn:H0; [|done]. cbn in *.
    rewrite Hgn. cbn. f_equal. rewrite foldl_add_edge. unfold diagram.
    destruct (nodes (_graph datatree)) as [|n ns] eqn:Hns.
    + cbn. replace gn with (@nil (string * GNode)); [done|].
      symmetry. apply (g_nodes_of_no_nodes datatree); [done|].
      unfold g_nodes_of. by rewrite H0.
    + by rewrite foldl_add_node.
  - destruct (init_nodes datatree) as [g0|e0] eqn:H0; cbn in *.
    + by rewrite Hgn.
    + congruence.
Qed.

Lemma make_graph_Ok py datatree fontname fontsize g :
  make_graph py datatree fontname fontsize = Ok g ↔
  viz_installed py = true
  ∧ ∃ gn, g_nodes_of datatree = Ok gn
          ∧ g = diagram py fontname fontsize gn (edges (_graph datatree)).
Proof.
  rewrite make_graph_unfold. destruct (viz_installed py).
  - destruct (g_nodes_of datatree) as [gn|e]; cbn.
    + split; [intros [= <-]; eauto | intros (_ & ? & [= <-] & ->); done].
    + split; [done | intros (_ & ? & [=] & _)].
  - split; [done | intros [[=] _]].
Qed.

Lemma make_graph_Raise py datatree fontname fontsize e :
  viz_installed py = true →
  make_graph py datatree fontname fontsize = Raise e ↔
  g_nodes_of datatree = Raise e.
Proof.
  intros Hviz. rewrite make_graph_unfold, Hviz.
  destruct (g_nodes_of datatree); cbn; naive_solver.
Qed.

(** The node identifiers of the result are the keys of [g_nodes]. *)
Lemma node_ids_diagram py fontname fontsize gn rels :
  node_ids (diagram py fontname fontsize gn rels) = dict_keys gn.
Proof.
  unfold node_ids, diagram, dict_keys. cbn. rewrite <- list_fmap_compose.
  done.
Qed.

(** ** Edges *)

Lemma diagram_edge_lookup py fontname fontsize gn rels i rel :
  rels !! i = Some rel →
  ag_edges (diagram py fontname fontsize gn rels) !! i = Some (edge_of py rel).
Proof. intros Hi. cbn. by rewrite list_lookup_fmap, Hi. Qed.

Lemma arrowhead_label py rel :
  arrowhead (edge_of py rel) = "odiamond" ↔ indexing rel = "label".
Proof.
  cbn. destruct (decide (indexing rel = "label")) as [Hl|Hl].
  - by rewrite bool_decide_eq_true_2.
  - rewrite bool_decide_eq_false_2 by done. split; [discriminate | done].
Qed.

Lemma arrowhead_not_label py rel :
  indexing rel ≠ "label" → arrowhead (edge_of py rel) = "normal".
Proof. intros Hl. cbn. by rewrite bool_decide_eq_false_2. Qed.

(** The indexing of a relationship plays no part in the two loops that
    build [g_nodes]. *)
Lemma add_var_loop_reindex ix es g :
  for_each (with_indexing ix <$> es) g add_var = for_each es g add_var.
Proof.
  revert g. induction es as [|rel es IH]; intros g; [done|]. cbn.
  change (add_var (with_indexing ix rel) g) with (add_var rel g).
  destruct (add_var rel g); cbn; [apply IH | done].
Qed.

Lemma g_nodes_of_reindex ix datatree :
  g_nodes_of (reindex ix datatree) = g_nodes_of datatree.
Proof.
  unfold g_nodes_of.
  change (init_nodes (reindex ix datatree)) with (init_nodes datatree).
  destruct (init_nodes datatree) as [g0|e]; [|done]. cbn.
  apply add_var_loop_reindex.
Qed.

(** C3.  The edge emitted for a relationship has the hollow diamond
    ([odiamond]) as its arrowhead exactly when the relationship is indexed
    by label, and the plain arrowhead ([normal]) when it is indexed by
    position.  Both branches are reachable: on the same graph, indexing the
    relationship by label yields the diamond and indexing it by position
    yields the plain arrowhead. *)
Theorem arrowhead_follows_indexing py datatree fontname fontsize g i rel :
  make_graph py datatree fontname fontsize = Ok g →
  edges (_graph datatree) !! i = Some rel →
  (∃ e, ag_edges g !! i = Some e
        ∧ tail e = parent_data rel ∧ head e = child_data rel
        ∧ (arrowhead e = "odiamond" ↔ indexing rel = "label")
        ∧ (indexing rel = "position" → arrowhead e = "normal"))
  ∧ (∃ g1 e1,
        make_graph py (reindex (λ _, "label") datatree) fontname fontsize = Ok g1
        ∧ ag_edges g1 !! i = Some e1 ∧ arrowhead e1 = "odiamond")
  ∧ (∃ g2 e2,
        make_graph py (reindex (λ _, "position") datatree) fontname fontsize
        = Ok g2
        ∧ ag_edges g2 !! i = Some e2 ∧ arrowhead e2 = "normal").
Proof.
  intros (Hviz & gn & Hgn & ->)%make_graph_Ok Hi. split_and!.
  - exists (edge_of py rel). split_and!.
    + by apply diagram_edge_lookup.
    + done.
    + done.
    + apply arrowhead_label.
    + intros Hpos. apply arrowhead_not_label. by rewrite Hpos.
  - eexists _, _. split_and!.
    + apply make_graph_Ok. split; [done|]. exists gn.
      by rewrite g_nodes_of_reindex.
    + apply diagram_edge_lookup. cbn. by rewrite list_lookup_fmap, Hi.
    + done.
  - eexists _, _. split_and!.
    + apply make_graph_Ok. split; [done|]. exists gn.
      by rewrite g_nodes_of_reindex.
    + apply diagram_edge_lookup. cbn. by rewrite list_lookup_fmap, Hi.
    + done.
Qed.

Lemma arrowhead_follows_indexing_witness :
  ∃ g, make_graph py_fifo tree_parallel "Arial" 12 = Ok g
       ∧ (∃ e, ag_edges g !! 0 = Some e ∧ arrowhead e = "odiamond")
       ∧ (∃ e, ag_edges g !! 1 = Some e ∧ arrowhead e = "normal").
Proof.
  eexists. split; [vm_compute; reflexivity|]. split.
  - destruct (arrowhead_follows_indexing py_fifo tree_parallel "Arial" 12
                _ 0 (mk_rel "A" "idvar" "B" "bid" "label")
                ltac:(vm_compute; reflexivity) eq_refl)
      as [(e & He & _ & _ & Hiff & _) _].
    exists e. split; [exact He | by apply Hiff].
  - destruct (arrowhead_follows_indexing py_fifo tree_parallel "Arial" 12
                _ 1 (mk_rel "A" "offset" "B" "bid" "position")
                ltac:(vm_compute; reflexivity) eq_refl)
      as [(e & He & _ & _ & _ & Hpos) _].
    exists e. split; [exact He | by apply Hpos].
Defined.

(** ** The two-node scenario *)

(** C2, as stated, fails: the ports of the edge are the bare concatenations
    [varidvar] and [dimbid], with no colon. *)
Lemma scenario_ports_without_colon :
  ∃ g e,
    make_graph py_fifo (tree_AB None) "Arial" 12 = Ok g
    ∧ ag_edges g = [e]
    ∧ tailport e = "varidvar" ∧ tailport e ≠ "var:idvar"
    ∧ headport e = "dimbid" ∧ headport e ≠ "dim:bid".
Proof.
  eexists _, _.
  split_and!; [vm_compute; reflexivity | reflexivity | reflexivity | done
               | reflexivity | done].
Qed.

(** C2, amended.  For nodes [A] (dims [id]) and [B] (dims [bid]) and the one
    relationship [A.idvar -> B.bid] by label, whichever of the two nodes is
    the root (or none), [make_graph] adds exactly the two nodes [A] and [B],
    [A] with the variable set [{idvar}] and [B] as seeded, and exactly one
    edge from [A] to [B], whose tail port is ["varidvar"], whose head port is
    ["dimbid"], and whose arrowhead is the hollow diamond [odiamond]. *)
Theorem scenario_two_nodes_one_edge py root fontname fontsize :
  viz_installed py = true →
  root ∈ [None; Some "A"; Some "B"] →
  ∃ gn g,
    g_nodes_of (tree_AB root) = Ok gn
    ∧ gn ≡ₚ [("A", {| dims := ["id"]; vars := ["idvar"] |});
             ("B", {| dims := ["bid"]; vars := [] |})]
    ∧ make_graph py (tree_AB root) fontname fontsize = Ok g
    ∧ ag_nodes g = node_of py fontname fontsize <$> gn
    ∧ node_ids g ≡ₚ ["A"; "B"]
    ∧ ag_edges g
      = [{| tail := "A"; head := "B";
            key := repr py (mk_rel "A" "idvar" "B" "bid" "label");
            tailport := "varidvar"; headport := "dimbid";
            dir := "forward"; arrowhead := "odiamond" |}].
Proof.
  intros Hviz Hroot.
  assert (∃ gn, g_nodes_of (tree_AB root) = Ok gn
                ∧ gn ≡ₚ [("A", {| dims := ["id"]; vars := ["idvar"] |});
                         ("B", {| dims := ["bid"]; vars := [] |})])
    as (gn & Hgn & Hperm).
  { repeat (apply elem_of_cons in Hroot as [->|Hroot]).
    - eexists. split; [vm_compute; reflexivity | done].
    - eexists. split; [vm_compute; reflexivity | done].
    - eexists. split; [vm_compute; reflexivity | apply Permutation_swap].
    - by apply elem_of_nil in Hroot. }
  exists gn, (diagram py fontname fontsize gn (edges (_graph (tree_AB root)))).
  split_and!; [done | done | | done | | done].
  - apply make_graph_Ok. eauto.
  - rewrite node_ids_diagram. unfold dict_keys. by rewrite Hperm.
Qed.

Lemma scenario_two_nodes_one_edge_witness :
  ∃ g, make_graph py_fifo (tree_AB (Some "A")) "Arial" 12 = Ok g
       ∧ node_ids g ≡ₚ ["A"; "B"]
       ∧ (tailport <$> ag_edges g) = ["varidvar"]
       ∧ (headport <$> ag_edges g) = ["dimbid"]
       ∧ (arrowhead <$> ag_edges g) = ["odiamond"].
Proof.
  destruct (scenario_two_nodes_one_edge py_fifo (Some "A") "Arial" 12 eq_refl)
    as (gn & g & _ & _ & Hg & _ & Hids & Hedges).
  { apply elem_of_cons; right. apply elem_of_cons; left. reflexivity. }
  exists g. rewrite Hedges. by split_and!.
Defined.

(** ** Nodes and their subspaces *)

Lemma unseeded_root_empty datatree k :
  unseeded_root datatree k ↔
  k = EmptyString ∧ root_node_name datatree = Some EmptyString.
Proof.
  unfold unseeded_root, truthy. split.
  - intros [Hr Ht]. rewrite Hr in Ht.
    apply negb_false_iff, bool_decide_eq_true in Ht. by subst.
  - intros [-> ->]. done.
Qed.

(** A graph node without a subspace makes the first loop raise the
    [KeyError] of a node that has no subspace: the root if it has none, or
    else the first such node in the iteration. *)
Lemma init_nodes_missing datatree k :
  k ∈ nodes (_graph datatree) →
  subspaces datatree !! k = None →
  ¬ unseeded_root datatree k →
  ∃ k', init_nodes datatree = Raise (KeyError k')
        ∧ subspaces datatree !! k' = None.
Proof.
  intros Hk Hmiss Hslip. unfold init_nodes.
  destruct (nodes (_graph datatree)) as [|n ns] eqn:Hns;
    [by apply elem_of_nil in Hk|].
  unfold seed_root. destruct (root_node_name datatree) as [r|] eqn:Hr.
  - destruct (truthy (Some r)) eqn:Ht.
    + unfold subspace_of at 1.
      destruct (subspaces datatree !! r) as [s|] eqn:Hs; cbn -[for_each].
      * apply (seed_loop_missing datatree (n :: ns) _ k); [done | | done].
        rewrite Hr. intros [= ->]. congruence.
      * eauto.
    + cbn -[for_each].
      apply (seed_loop_missing datatree (n :: ns) _ k); [done | | done].
      rewrite Hr. intros [= ->]. apply Hslip. split; [done|].
      by rewrite Hr.
  - cbn -[for_each].
    apply (seed_loop_missing datatree (n :: ns) _ k); [done | | done].
    by rewrite Hr.
Qed.

Lemma missing_subspace_raises py datatree fontname fontsize k :
  viz_installed py = true →
  k ∈ nodes (_graph datatree) →
  subspaces datatree !! k = None →
  ¬ unseeded_root datatree k →
  ∃ k', make_graph py datatree fontname fontsize = Raise (KeyError k')
        ∧ subspaces datatree !! k' = None.
Proof.
  intros Hviz Hk Hmiss Hslip.
  destruct (init_nodes_missing datatree k) as (k' & Hinit & Hk'); [done..|].
  exists k'. split; [|done].
  apply make_graph_Raise; [done|]. unfold g_nodes_of. by rewrite Hinit.
Qed.

(** C10, at the input where the code departs from it: the only node of the
    graph has the empty name and is the root.  Line 24 takes the empty root
    name for false and seeds nothing, line 30 passes the node over as the
    root; its subspace is never looked up and the build returns an empty
    graph although the node has no subspace.  With no root at all, the
    same node is looked up and the build raises. *)
Theorem unnamed_root_never_looked_up :
  EmptyString ∈ nodes (_graph tree_unnamed)
  ∧ subspaces tree_unnamed !! EmptyString = None
  ∧ init_nodes tree_unnamed = Ok []
  ∧ make_graph py_fifo tree_unnamed "Arial" 12
    = Ok (diagram py_fifo "Arial" 12 [] [])
  ∧ make_graph py_fifo (mk_tree [EmptyString] [] [] None) "Arial" 12
    = Raise (KeyError EmptyString).
Proof.
  split_and!; [| reflexivity..].
  apply list_elem_of_singleton. reflexivity.
Qed.

(** ** The root and the node set *)

(** X20.  Let [root_node_name] be a name that line 24 takes for true, that
    is, a name other than the empty string.  When the graph has no node, no
    node is added and the root is not in the result.  When the graph has
    nodes, the root is seeded first, with the dimensions of its subspace
    and an empty variable set, and it is the first node of the result and
    occurs there exactly once, whether or not the node iteration yields it
    and whatever the edges. *)
Theorem root_first_and_once py datatree fontname fontsize g r :
  root_node_name datatree = Some r →
  truthy (root_node_name datatree) = true →
  make_graph py datatree fontname fontsize = Ok g →
  (nodes (_graph datatree) = [] → node_ids g = [])
  ∧ (nodes (_graph datatree) ≠ [] →
     ∃ s rest,
       subspaces datatree !! r = Some s
       ∧ seed_root datatree = Ok [(r, {| dims := subspace_dims s; vars := [] |})]
       ∧ node_ids g = r :: rest
       ∧ r ∉ rest).
Proof.
  intros Hr Ht (Hviz & gn & Hgn & ->)%make_graph_Ok.
  rewrite node_ids_diagram. split.
  - intros Hns. by rewrite (g_nodes_of_no_nodes _ _ Hns Hgn).
  - intros Hns. apply g_nodes_of_Ok in Hgn as (g0 & H0 & _ & ->).
    apply init_nodes_keys in H0 as (Hnd & _ & Hfirst).
    destruct (Hfirst r Ht Hr Hns) as (s & rest & Hs & Hseed & Hkeys).
    exists s, rest. rewrite Hkeys in Hnd |- *.
    apply NoDup_cons in Hnd as [Hnotin _].
    by split_and!.
Qed.

Lemma root_first_and_once_witness :
  ∃ g rest,
    make_graph py_fifo tree_parallel "Arial" 12 = Ok g
    ∧ node_ids g = "A" :: rest ∧ "A" ∉ rest.
Proof.
  eexists _.
  destruct (root_first_and_once py_fifo tree_parallel "Arial" 12 _ "A"
              eq_refl eq_refl ltac:(vm_compute; reflexivity))
    as [_ Hroot].
  destruct Hroot as (s & rest & _ & _ & Hids & Hnotin); [done|].
  exists rest. split_and!; [vm_compute; reflexivity | exact Hids | exact Hnotin].
Defined.

(** C7, as stated, fails: [B] takes part in no relationship and is not the
    root, and it is added to the result. *)
Lemma isolated_node_is_rendered :
  ∃ g,
    make_graph py_fifo tree_isolated "Arial" 12 = Ok g
    ∧ edges (_graph tree_isolated) = []
    ∧ root_node_name tree_isolated ≠ Some "B"
    ∧ "B" ∈ node_ids g.
Proof.
  eexists. split_and!; [vm_compute; reflexivity | reflexivity | done |].
  apply elem_of_cons; right. apply list_elem_of_singleton. reflexivity.
Qed.

(** C7, amended.  When the build succeeds, the nodes of the result are
    exactly the graph's nodes together with the designated root, provided
    the graph has a node at all, and each of them is added exactly once;
    a graph node is rendered whether or not a relationship mentions it, the
    parent of every relationship is among them, and a dataset that is
    neither a graph node nor the root is not rendered.  (Graphs in which
    the node of the empty name is also the root are left aside.) *)
Theorem rendered_nodes_are_graph_nodes py datatree fontname fontsize g :
  make_graph py datatree fontname fontsize = Ok g →
  (∀ k, k ∈ nodes (_graph datatree) → ¬ unseeded_root datatree k) →
  NoDup (node_ids g)
  ∧ (∀ k, k ∈ node_ids g ↔
          nodes (_graph datatree) ≠ []
          ∧ (k ∈ nodes (_graph datatree)
             ∨ (root_node_name datatree = Some k
                ∧ truthy (root_node_name datatree) = true)))
  ∧ (∀ rel, rel ∈ edges (_graph datatree) → parent_data rel ∈ node_ids g).
Proof.
  intros (Hviz & gn & Hgn & ->)%make_graph_Ok Hslip.
  rewrite node_ids_diagram.
  apply g_nodes_of_Ok in Hgn as (g0 & H0 & Hcollect & ->).
  split_and!;
    [| |intros rel; by apply (add_var_loop_parents _ _ _ _ Hcollect)].
  { by apply init_nodes_keys in H0 as (Hnd & _ & _). }
  apply init_nodes_keys in H0 as (Hnd & Hin & _).
  intros k. rewrite Hin. split.
  - intros [Hns [[Ht Hr]|[Hk _]]]; auto.
  - intros [Hns [Hk|[Hr Ht]]]; (split; [done|]); [|by left].
    destruct (decide (Some k = root_node_name datatree)) as [Heq|Hne];
      [|by right].
    left. split; [|done].
    destruct (truthy (root_node_name datatree)) eqn:Ht; [done|].
    destruct (Hslip k Hk). by split.
Qed.

Lemma rendered_nodes_are_graph_nodes_witness :
  ∃ g, make_graph py_fifo tree_isolated "Arial" 12 = Ok g
       ∧ NoDup (node_ids g)
       ∧ ("B" ∈ node_ids g) ∧ ("C" ∉ node_ids g).
Proof.
  eexists _.
  destruct (rendered_nodes_are_graph_nodes py_fifo tree_isolated "Arial" 12 _
              ltac:(vm_compute; reflexivity)) as (Hnd & Hin & _).
  { intros k _ [Hroot Ht]. vm_compute in Ht. discriminate Ht. }
  split_and!; [vm_compute; reflexivity | exact Hnd | |].
  - apply Hin. split; [done|]. left.
    apply elem_of_cons; right. apply list_elem_of_singleton. reflexivity.
  - intros [_ [Hc|[Hc _]]]%Hin.
    + apply elem_of_cons in Hc as [Hc|Hc]; [discriminate Hc|].
      apply list_elem_of_singleton in Hc. discriminate Hc.
    + vm_compute in Hc. discriminate Hc.
Defined.

(** ** Two runs on the same input *)

(** Both sample interpreters enumerate exactly the members of a set. *)
Lemma py_fifo_iter_perm s : set_iter py_fifo s ≡ₚ s.
Proof. done. Qed.

Lemma py_lifo_iter_perm s : set_iter py_lifo s ≡ₚ s.
Proof. cbn. apply reverse_Permutation. Qed.

(** C9, as stated, fails: two interpreters that differ only in the order in
    which a set yields its members, both of which Python allows for the set
    [{idvar, offset}] of node [A], build graphs whose labels differ. *)
Lemma set_order_changes_label :
  ∃ g1 g2,
    make_graph py_fifo tree_parallel "Arial" 12 = Ok g1
    ∧ make_graph py_lifo tree_parallel "Arial" 12 = Ok g2
    ∧ (label <$> ag_nodes g1) ≠ (label <$> ag_nodes g2)
    ∧ g1 ≠ g2.
Proof.
  eexists _, _. split_and!; [vm_compute; reflexivity.. | |].
  - vm_compute. discriminate.
  - vm_compute. discriminate.
Qed.

Lemma node_label_iter_ext py1 py2 small k v :
  set_iter py1 (vars v) = set_iter py2 (vars v) →
  node_label py1 small k v = node_label py2 small k v.
Proof. intros Hiter. unfold node_label, node_rows. by rewrite Hiter. Qed.

Lemma set_iter_small py s :
  (∀ s, set_iter py s ≡ₚ s) → length s ≤ 1 → set_iter py s = s.
Proof.
  intros Hperm Hlen. destruct s as [|x [|y s]].
  - apply Permutation_nil_r, Hperm.
  - apply Permutation_singleton_r, Hperm.
  - cbn in Hlen. lia.
Qed.

(** C9, amended.  Two runs on the same input whose interpreters differ at
    most in the iteration order of sets raise the same exception, or return
    graphs with the same nodes in the same order and the same edges, built
    from the same dictionary [g_nodes] (so with the same variable set for
    each node).  The label of a node enumerates its variables in the
    iteration order of the run: the two graphs are identical as soon as the
    two runs iterate each node's variable set in the same order, and in
    particular, the iteration of a set yielding exactly its members, when
    no node has more than one variable. *)
Theorem runs_agree_up_to_set_order py1 py2 datatree fontname fontsize :
  viz_installed py1 = viz_installed py2 →
  (∀ rel, repr py1 rel = repr py2 rel) →
  format_small py1 fontsize = format_small py2 fontsize →
  (∀ e, make_graph py1 datatree fontname fontsize = Raise e ↔
        make_graph py2 datatree fontname fontsize = Raise e)
  ∧ (∀ g1, make_graph py1 datatree fontname fontsize = Ok g1 →
       ∃ g2 gn,
         make_graph py2 datatree fontname fontsize = Ok g2
         ∧ g_nodes_of datatree = Ok gn
         ∧ node_ids g1 = dict_keys gn ∧ node_ids g2 = dict_keys gn
         ∧ ag_edges g1 = ag_edges g2
         ∧ ((∀ k v, (k, v) ∈ gn →
                    set_iter py1 (vars v) = set_iter py2 (vars v)) →
            g1 = g2)
         ∧ ((∀ s, set_iter py1 s ≡ₚ s) → (∀ s, set_iter py2 s ≡ₚ s) →
            (∀ k v, (k, v) ∈ gn → length (vars v) ≤ 1) →
            g1 = g2)).
Proof.
  intros Hviz Hrepr Hsmall. split.
  - intros e. rewrite !make_graph_unfold, Hviz.
    destruct (viz_installed py2); [|done].
    destruct (g_nodes_of datatree); cbn; naive_solver.
  - intros g1 (Hviz1 & gn & Hgn & ->)%make_graph_Ok.
    exists (diagram py2 fontname fontsize gn (edges (_graph datatree))), gn.
    assert (edge_of py1 <$> edges (_graph datatree)
            = edge_of py2 <$> edges (_graph datatree)) as Hedges.
    { apply list_fmap_ext. intros i rel _. unfold edge_of. by rewrite Hrepr. }
    assert ((∀ k v, (k, v) ∈ gn →
                    set_iter py1 (vars v) = set_iter py2 (vars v)) →
            diagram py1 fontname fontsize gn (edges (_graph datatree))
            = diagram py2 fontname fontsize gn (edges (_graph datatree)))
      as Hsame.
    { intros Hiter. unfold diagram. rewrite Hedges. f_equal.
      apply list_fmap_ext. intros i [k v] Hi. unfold node_of. cbn.
      rewrite Hsmall. f_equal. apply node_label_iter_ext, (Hiter k).
      by apply list_elem_of_lookup_2 in Hi. }
    split_and!.
    + apply make_graph_Ok. split; [congruence | eauto].
    + done.
    + apply node_ids_diagram.
    + apply node_ids_diagram.
    + done.
    + done.
    + intros Hperm1 Hperm2 Hone. apply Hsame. intros k v Hkv.
      specialize (Hone k v Hkv). by rewrite !set_iter_small.
Qed.

Lemma runs_agree_up_to_set_order_witness :
  ∃ g, make_graph py_fifo (tree_AB None) "Arial" 12 = Ok g
       ∧ make_graph py_lifo (tree_AB None) "Arial" 12 = Ok g.
Proof.
  destruct (runs_agree_up_to_set_order py_fifo py_lifo (tree_AB None)
              "Arial" 12 eq_refl (λ _, eq_refl) eq_refl) as [_ Hok].
  destruct (Hok _ ltac:(vm_compute; reflexivity))
    as (g2 & gn & Hg2 & Hgn & _ & _ & _ & _ & Hone).
  exists g2. split; [|exact Hg2].
  rewrite <- Hone; [vm_compute; reflexivity | | |].
  - intros s. reflexivity.
  - intros s. apply reverse_Permutation.
  - intros k v Hkv. vm_compute in Hgn. injection Hgn as <-.
    apply elem_of_cons in Hkv as [[= -> ->]|Hkv]; [cbn; lia|].
    apply list_elem_of_singleton in Hkv as [= -> ->]. cbn. lia.
Defined.

(** ** The rows of a label *)

Section rows.
Implicit Types (xs ys : list string).

Lemma pair_row_attribute p : is_attribute_row (pair_row p) = true.
Proof. destruct p as [_d _v]. unfold pair_row. by repeat case_bool_decide. Qed.

Lemma attribute_rows_all {A} (f : A → Row) (l : list A) :
  (∀ x, is_attribute_row (f x) = true) →
  attribute_rows (f <$> l) = f <$> l.
Proof.
  intros Hf. unfold attribute_rows. induction l as [|x l IH]; [done|].
  rewrite fmap_cons, filter_cons_True by apply Hf. by rewrite IH.
Qed.

Lemma zip_longest_length fill xs ys :
  length (zip_longest fill xs ys) = length xs `max` length ys.
Proof.
  revert ys. induction xs as [|x xs IH]; intros ys; cbn.
  - by rewrite length_fmap.
  - destruct ys as [|y ys]; cbn; rewrite IH; cbn; lia.
Qed.

(** With no empty name on either side, the padding is told apart from
    the names: the dimension cells are the dimensions, in order, and the
    variable cells are the variables, in order. *)
Lemma zip_longest_columns xs ys :
  EmptyString ∉ xs → EmptyString ∉ ys →
  omap row_dim (pair_row <$> zip_longest EmptyString xs ys) = xs
  ∧ omap row_var (pair_row <$> zip_longest EmptyString xs ys) = ys.
Proof.
  revert ys. induction xs as [|x xs IH]; intros ys Hxs Hys.
  - cbn. clear Hxs. induction ys as [|y ys IHy]; [done|].
    apply not_elem_of_cons in Hys as [Hy Hys].
    destruct (IHy Hys) as [Hd Hv]. cbn in *. by rewrite Hd, Hv.
  - apply not_elem_of_cons in Hxs as [Hx Hxs].
    destruct ys as [|y ys]; cbn.
    + destruct (IH [] Hxs Hys) as [Hd Hv]. cbn in *.
      rewrite bool_decide_eq_false_2 by done. cbn. by rewrite Hd, Hv.
    + apply not_elem_of_cons in Hys as [Hy Hys].
      destruct (IH ys Hxs Hys) as [Hd Hv].
      rewrite bool_decide_eq_false_2 by done.
      rewrite bool_decide_eq_false_2 by done. cbn. by rewrite Hd, Hv.
Qed.

Lemma single_rows_columns xs :
  omap row_dim (SingleDimRow <$> xs) = xs
  ∧ omap row_var (SingleDimRow <$> xs) = [].
Proof.
  induction xs as [|x xs [IHd IHv]]; [done|]. cbn in *. by rewrite IHd, IHv.
Qed.
End rows.

(** A node without dimensions gets no row at all, whatever its variables. *)
Lemma node_rows_no_dims py v : dims v = [] → node_rows py v = [].
Proof. unfold node_rows. by intros ->. Qed.

(** Where the label does cover the node: with at least one dimension and no
    empty name, there are [max k m] attribute rows, the dimension cells are
    the [k] dimensions in order, and the variable cells are the [m]
    variables in iteration order. *)
Lemma node_rows_cover py v :
  (∀ s, set_iter py s ≡ₚ s) →
  dims v ≠ [] → EmptyString ∉ dims v → EmptyString ∉ vars v →
  length (attribute_rows (node_rows py v))
  = length (dims v) `max` length (vars v)
  ∧ omap row_dim (node_rows py v) = dims v
  ∧ omap row_var (node_rows py v) = set_iter py (vars v)
  ∧ set_iter py (vars v) ≡ₚ vars v.
Proof.
  intros Hperm Hdims Hd Hv. unfold node_rows.
  assert (0 < length (dims v)) as Hk by (destruct (dims v); [done | cbn; lia]).
  rewrite (bool_decide_eq_true_2 _ Hk). cbn [andb].
  destruct (vars v) as [|x xs] eqn:Hvars.
  - cbn [length]. rewrite bool_decide_eq_false_2 by lia.
    rewrite bool_decide_eq_true_2 by done.
    assert (set_iter py [] = []) as -> by apply Permutation_nil_r, Hperm.
    split_and!; [| | | done].
    + unfold attribute_rows. rewrite filter_cons_False by done.
      fold (attribute_rows (SingleDimRow <$> dims v)).
      rewrite attribute_rows_all by done. rewrite length_fmap. lia.
    + cbn. apply single_rows_columns.
    + cbn. apply single_rows_columns.
  - rewrite bool_decide_eq_true_2 by (cbn; lia).
    rewrite <- Hvars in *. clear x xs Hvars.
    assert (EmptyString ∉ set_iter py (vars v)) as Hv' by by rewrite Hperm.
    destruct (zip_longest_columns (dims v) (set_iter py (vars v)) Hd Hv')
      as [Hcd Hcv].
    split_and!; [| done | done | done].
    unfold attribute_rows. rewrite filter_cons_False by done.
    fold (attribute_rows
            (pair_row <$> zip_longest EmptyString (dims v) (set_iter py (vars v)))).
    rewrite attribute_rows_all by apply pair_row_attribute.
    by rewrite length_fmap, zip_longest_length, Hperm.
Qed.

(** C1, at the input where the code departs from it: dataset [A] has no
    dimension and one variable, [x], the parent of a relationship.  Its
    label gets no attribute row, where [max 0 1 = 1] row showing [x] is
    claimed, while the edge that leaves [A] is bound to the port [varx],
    and while [node_label_simple] gives [x] its field on the same node. *)
Theorem variables_without_dimensions_unlisted :
  let v := {| dims := []; vars := ["x"] |} in
  ∃ g,
    make_graph py_fifo tree_scalar "Arial" 12 = Ok g
    ∧ g_nodes_of tree_scalar
      = Ok [("A", v); ("B", {| dims := ["bid"]; vars := [] |})]
    ∧ (label <$> ag_nodes g) !! 0 = Some (node_label py_fifo "8.4" "A" v)
    ∧ node_rows py_fifo v = []
    ∧ length (attribute_rows (node_rows py_fifo v)) = 0
    ∧ length (dims v) `max` length (vars v) = 1
    ∧ (tailport <$> ag_edges g) = ["varx"]
    ∧ node_label_simple py_fifo "A" v
      = "<f0>A|{{Dimensions|}||{Variables|<varx>x}}".
Proof.
  cbn zeta. eexists.
  split_and!; [vm_compute; reflexivity | vm_compute; reflexivity
               | reflexivity..].
Qed.

(** ** The first loop as a sequence of lookups *)

Section lookups.
Variable datatree : DataTree.
Implicit Types (g : list (string * GNode)) (k : string) (l : list string).

Lemma seed_node_as_lookup k g :
  seed_node datatree k g
  = if bool_decide (Some k = root_node_name datatree) then Ok g
    else lookup_node datatree k g.
Proof. done. Qed.

Lemma lookup_node_unfold k g :
  lookup_node datatree k g
  = match subspaces datatree !! k with
    | Some s => Ok (dict_set k (fresh_node s) g)
    | None => Raise (KeyError k)
    end.
Proof. unfold lookup_node, subspace_of. by destruct (_ !! k). Qed.

Lemma seed_loop_as_lookups ns g :
  for_each ns g (seed_node datatree)
  = for_each (filter (λ k, Some k ≠ root_node_name datatree) ns) g
      (lookup_node datatree).
Proof.
  revert g. induction ns as [|n ns IH]; intros g; [done|].
  cbn [for_each]. rewrite seed_node_as_lookup.
  destruct (decide (Some n = root_node_name datatree)) as [Heq|Hne].
  - rewrite bool_decide_eq_true_2 by done.
    rewrite filter_cons_False by (intros Hn; by apply Hn). cbn. apply IH.
  - rewrite bool_decide_eq_false_2 by done.
    rewrite filter_cons_True by done. cbn [for_each].
    destruct (lookup_node datatree n g); cbn; [apply IH | done].
Qed.

(** Lines 22-35 amount to looking up the keys of [lookup_order] one after
    the other, starting from the empty dictionary. *)
Lemma init_nodes_as_lookups :
  init_nodes datatree
  = for_each (lookup_order datatree) [] (lookup_node datatree).
Proof.
  unfold init_nodes, lookup_order.
  destruct (nodes (_graph datatree)) as [|n ns] eqn:Hns; [done|].
  unfold seed_root. destruct (root_node_name datatree) as [r|] eqn:Hr.
  - destruct (truthy (Some r)).
    + cbn [app for_each]. rewrite lookup_node_unfold. unfold subspace_of.
      destruct (subspaces datatree !! r); cbn -[for_each filter]; [|done].
      rewrite <- Hr. exact (seed_loop_as_lookups (n :: ns) _).
    + rewrite <- Hr. exact (seed_loop_as_lookups (n :: ns) _).
  - rewrite <- Hr. exact (seed_loop_as_lookups (n :: ns) _).
Qed.

Lemma lookups_Ok l g :
  (∀ k, k ∈ l → is_Some (subspaces datatree !! k)) →
  ∃ g', for_each l g (lookup_node datatree) = Ok g'.
Proof.
  revert g. induction l as [|n l IH]; intros g Hall; [by eexists|].
  cbn. rewrite lookup_node_unfold.
  destruct (Hall n) as [s ->]; [set_solver|]. cbn. apply IH. set_solver.
Qed.

Lemma lookups_first_missing l1 k l2 g :
  (∀ j, j ∈ l1 → is_Some (subspaces datatree !! j)) →
  subspaces datatree !! k = None →
  for_each (l1 ++ k :: l2) g (lookup_node datatree) = Raise (KeyError k).
Proof.
  intros Hall Hk. revert g. induction l1 as [|n l1 IH]; intros g; cbn.
  - by rewrite lookup_node_unfold, Hk.
  - rewrite lookup_node_unfold.
    destruct (Hall n) as [s ->]; [set_solver|]. cbn. apply IH. set_solver.
Qed.

Lemma lookups_Raise l g e :
  for_each l g (lookup_node datatree) = Raise e →
  ∃ l1 k l2, l = l1 ++ k :: l2 ∧ e = KeyError k
             ∧ subspaces datatree !! k = None
             ∧ ∀ j, j ∈ l1 → is_Some (subspaces datatree !! j).
Proof.
  revert g. induction l as [|n l IH]; intros g; [done|]. cbn.
  rewrite lookup_node_unfold.
  destruct (subspaces datatree !! n) as [s|] eqn:Hn; cbn.
  - intros (l1 & k & l2 & -> & -> & Hk & Hall)%IH.
    exists (n :: l1), k, l2. split_and!; [done..|].
    intros j [->|Hj]%elem_of_cons; [by eexists | by apply Hall].
  - intros [= <-]. exists [], n, l. split_and!; [done..|].
    intros j Hj. by apply elem_of_nil in Hj.
Qed.

Lemma lookups_Ok_inv l g g' :
  for_each l g (lookup_node datatree) = Ok g' →
  (∀ k, k ∈ l → is_Some (subspaces datatree !! k))
  ∧ (∀ k, k ∈ dict_keys g' ↔ k ∈ dict_keys g ∨ k ∈ l)
  ∧ (NoDup (dict_keys g) → NoDup (dict_keys g')).
Proof.
  revert g. induction l as [|n l IH]; intros g; cbn.
  - intros [= <-]. split_and!; [set_solver | set_solver | done].
  - rewrite lookup_node_unfold.
    destruct (subspaces datatree !! n) as [s|] eqn:Hn; cbn; [|done].
    intros (Hall & Hkeys & Hnd)%IH. split_and!.
    + intros k [->|Hk]%elem_of_cons; [by eexists | by apply Hall].
    + intros k. rewrite Hkeys, dict_keys_set.
      destruct (bool_decide (n ∈ dict_keys g)) eqn:Hin.
      * apply bool_decide_eq_true in Hin. set_solver.
      * set_solver.
    + intros Hg. by apply Hnd, dict_set_NoDup.
Qed.

(** Looking up distinct keys that are not in the dictionary yet appends
    them in order. *)
Lemma lookups_keys_fresh l g g' :
  NoDup l → (∀ k, k ∈ l → k ∉ dict_keys g) →
  for_each l g (lookup_node datatree) = Ok g' →
  dict_keys g' = dict_keys g ++ l.
Proof.
  revert g. induction l as [|n l IH]; intros g Hnd Hfresh; cbn.
  - intros [= <-]. by rewrite app_nil_r.
  - rewrite lookup_node_unfold.
    destruct (subspaces datatree !! n) as [s|] eqn:Hn; cbn; [|done].
    apply NoDup_cons in Hnd as [Hn_l Hnd]. intros Hloop.
    assert (n ∉ dict_keys g) as Hn_g by (apply Hfresh; set_solver).
    apply IH in Hloop; [|done|].
    + rewrite Hloop, dict_keys_set, bool_decide_eq_false_2 by done.
      by rewrite <- app_assoc.
    + intros k Hk. rewrite dict_keys_set, bool_decide_eq_false_2 by done.
      rewrite not_elem_of_app, list_elem_of_singleton. split.
      * apply Hfresh. set_solver.
      * intros ->. done.
Qed.
End lookups.

(** ** Entries of the dictionary *)

Lemma dict_get_set {V} (k j : string) (v : V) (d : list (string * V)) :
  dict_get j (dict_set k v d)
  = if bool_decide (k = j) then Some v else dict_get j d.
Proof.
  induction d as [|[k' v'] d IH]; [done|]. cbn [dict_set].
  destruct (decide (k' = k)) as [->|Hne].
  - rewrite bool_decide_eq_true_2 by done. cbn [dict_get].
    by destruct (bool_decide (k = j)).
  - rewrite bool_decide_eq_false_2 by done. cbn [dict_get]. rewrite IH.
    destruct (decide (k' = j)) as [->|Hne'].
    + rewrite bool_decide_eq_true_2 by done.
      by rewrite bool_decide_eq_false_2 by congruence.
    + by rewrite (bool_decide_eq_false_2 (k' = j)).
Qed.

Lemma dict_get_elem {V} (k : string) (v : V) (d : list (string * V)) :
  NoDup (dict_keys d) → (k, v) ∈ d → dict_get k d = Some v.
Proof.
  unfold dict_keys. induction d as [|[k' v'] d IH]; cbn.
  - intros _ Hin. by apply elem_of_nil in Hin.
  - intros [Hk' Hnd]%NoDup_cons [[= -> ->]|Hin]%elem_of_cons.
    + by rewrite bool_decide_eq_true_2.
    + rewrite bool_decide_eq_false_2; [by apply IH|].
      intros ->. apply Hk'. apply list_elem_of_fmap. by exists (k, v).
Qed.

Lemma elem_of_set_add x y s : x ∈ set_add y s ↔ x = y ∨ x ∈ s.
Proof.
  unfold set_add. destruct (decide (y ∈ s)) as [Hy|Hy].
  - rewrite bool_decide_eq_true_2 by done. naive_solver.
  - rewrite bool_decide_eq_false_2 by done.
    rewrite elem_of_app, list_elem_of_singleton. naive_solver.
Qed.

Lemma set_add_NoDup y s : NoDup s → NoDup (set_add y s).
Proof.
  intros Hs. unfold set_add. destruct (decide (y ∈ s)) as [Hy|Hy].
  - by rewrite bool_decide_eq_true_2.
  - rewrite bool_decide_eq_false_2 by done.
    apply NoDup_app. split_and!; [done | | apply NoDup_singleton].
    intros x Hx ->%list_elem_of_singleton. done.
Qed.

(** After the first loop every value is as it was seeded: the dimensions
    of the subspace and no variable. *)
Lemma lookups_entries datatree l g g' :
  for_each l g (lookup_node datatree) = Ok g' →
  ∀ k v, dict_get k g' = Some v →
         dict_get k g = Some v
         ∨ ∃ s, subspaces datatree !! k = Some s ∧ v = fresh_node s.
Proof.
  revert g. induction l as [|n l IH]; intros g; cbn.
  - intros [= <-]. auto.
  - rewrite lookup_node_unfold.
    destruct (subspaces datatree !! n) as [s|] eqn:Hn; cbn; [|done].
    intros Hloop k v Hget.
    destruct (IH _ Hloop k v Hget) as [Hg|Hfresh]; [|by right].
    rewrite dict_get_set in Hg. destruct (decide (n = k)) as [->|Hne].
    + rewrite bool_decide_eq_true_2 in Hg by done. injection Hg as <-. eauto.
    + rewrite bool_decide_eq_false_2 in Hg by done. auto.
Qed.

(** ** The second loop *)

Lemma add_var_unfold rel g :
  add_var rel g
  = match dict_get (parent_data rel) g with
    | Some v =>
        Ok (dict_set (parent_data rel)
              {| dims := dims v; vars := set_add (parent_name rel) (vars v) |} g)
    | None => Raise (KeyError (parent_data rel))
    end.
Proof. done. Qed.

Lemma add_vars_Ok es (g : list (string * GNode)) :
  (∀ rel, rel ∈ es → parent_data rel ∈ dict_keys g) →
  ∃ g', for_each es g add_var = Ok g'.
Proof.
  revert g. induction es as [|rel es IH]; intros g Hall; [by eexists|].
  cbn. rewrite add_var_unfold.
  destruct (dict_get (parent_data rel) g) as [v|] eqn:Hget.
  - cbn. apply IH. intros rel' Hrel'.
    rewrite dict_keys_set_present; [apply Hall; set_solver|].
    apply dict_get_is_Some. eauto.
  - apply dict_get_None in Hget. destruct Hget. apply Hall. set_solver.
Qed.

Lemma add_vars_first_missing e1 rel e2 (g : list (string * GNode)) :
  (∀ r, r ∈ e1 → parent_data r ∈ dict_keys g) →
  parent_data rel ∉ dict_keys g →
  for_each (e1 ++ rel :: e2) g add_var = Raise (KeyError (parent_data rel)).
Proof.
  intros Hall Hrel. revert g Hall Hrel.
  induction e1 as [|r e1 IH]; intros g Hall Hrel; cbn.
  - rewrite add_var_unfold. apply dict_get_None in Hrel. by rewrite Hrel.
  - rewrite add_var_unfold.
    destruct (dict_get (parent_data r) g) as [v|] eqn:Hget.
    + cbn. assert (parent_data r ∈ dict_keys g) as Hr
        by (apply dict_get_is_Some; eauto).
      apply IH; intros *; rewrite dict_keys_set_present by done;
        [intros ?; apply Hall; set_solver | done].
    + apply dict_get_None in Hget. destruct Hget. apply Hall. set_solver.
Qed.

Lemma add_vars_Raise es (g : list (string * GNode)) e :
  for_each es g add_var = Raise e →
  ∃ e1 rel e2, es = e1 ++ rel :: e2 ∧ e = KeyError (parent_data rel)
               ∧ parent_data rel ∉ dict_keys g
               ∧ ∀ r, r ∈ e1 → parent_data r ∈ dict_keys g.
Proof.
  revert g. induction es as [|r es IH]; intros g; [done|]. cbn.
  rewrite add_var_unfold.
  destruct (dict_get (parent_data r) g) as [v|] eqn:Hget; cbn.
  - assert (parent_data r ∈ dict_keys g) as Hr
      by (apply dict_get_is_Some; eauto).
    intros (e1 & rel & e2 & -> & -> & Hrel & Hall)%IH.
    rewrite dict_keys_set_present in Hrel by done.
    exists (r :: e1), rel, e2. split_and!; [done..|].
    intros r' [->|Hr']%elem_of_cons; [done|].
    specialize (Hall r' Hr'). by rewrite dict_keys_set_present in Hall.
  - intros [= <-]. exists [], r, es. split_and!; [done | done | |].
    + by apply dict_get_None.
    + intros r' Hr'. by apply elem_of_nil in Hr'.
Qed.

(** What the second loop does to the value of a key: the dimensions stay,
    and the variables gain the parent names of the relationships that
    leave the key. *)
Lemma add_vars_entries es (g g' : list (string * GNode)) :
  for_each es g add_var = Ok g' →
  ∀ k v', dict_get k g' = Some v' →
    ∃ v, dict_get k g = Some v
         ∧ dims v' = dims v
         ∧ (∀ x, x ∈ vars v' ↔
                 x ∈ vars v
                 ∨ ∃ rel, rel ∈ es ∧ parent_data rel = k ∧ parent_name rel = x)
         ∧ (NoDup (vars v) → NoDup (vars v')).
Proof.
  revert g. induction es as [|rel es IH]; intros g; cbn.
  - intros [= <-] k v' Hget. exists v'. split_and!; [done | done | | done].
    intros x. split; [auto | intros [?|(rel & Hin & _)]; [done|]].
    by apply elem_of_nil in Hin.
  - rewrite add_var_unfold.
    destruct (dict_get (parent_data rel) g) as [v0|] eqn:Hget0; cbn; [|done].
    intros Hloop k v' Hget.
    destruct (IH _ Hloop k v' Hget) as (v1 & Hget1 & Hdims & Hvars & Hnd).
    rewrite dict_get_set in Hget1.
    destruct (decide (parent_data rel = k)) as [Hk|Hk].
    + rewrite bool_decide_eq_true_2 in Hget1 by done. injection Hget1 as <-.
      subst k. exists v0. cbn in *. split_and!; [done | done | |].
      * intros x. rewrite Hvars, elem_of_set_add. split.
        -- intros [[->|Hx]|(r & Hr & Hpd & Hpn)]; [| by left |].
           ++ right. exists rel. split_and!; [set_solver | done..].
           ++ right. exists r. split_and!; [set_solver | done..].
        -- intros [Hx|(r & [->|Hr]%elem_of_cons & Hpd & Hpn)]; [auto | auto |].
           right. eauto.
      * intros Hnd0. by apply Hnd, set_add_NoDup.
    + rewrite bool_decide_eq_false_2 in Hget1 by done.
      exists v1. split_and!; [done | done | | done].
      intros x. rewrite Hvars. split.
      * intros [Hx|(r & Hr & Hpd & Hpn)]; [by left|].
        right. exists r. split_and!; [set_solver | done..].
      * intros [Hx|(r & [->|Hr]%elem_of_cons & Hpd & Hpn)]; [by left | done |].
        right. eauto.
Qed.

(** ** When the build succeeds, and what it raises *)

Lemma init_nodes_lookup_keys datatree g0 :
  init_nodes datatree = Ok g0 →
  (∀ k, k ∈ lookup_order datatree → is_Some (subspaces datatree !! k))
  ∧ (∀ k, k ∈ dict_keys g0 ↔ k ∈ lookup_order datatree)
  ∧ NoDup (dict_keys g0).
Proof.
  rewrite init_nodes_as_lookups.
  intros (Hall & Hkeys & Hnd)%lookups_Ok_inv. split_and!; [done | |].
  - intros k. rewrite Hkeys. cbn. rewrite elem_of_nil. naive_solver.
  - apply Hnd. constructor.
Qed.

Lemma lookup_order_NoDup datatree :
  NoDup (nodes (_graph datatree)) → NoDup (lookup_order datatree).
Proof.
  intros Hnd. unfold lookup_order.
  destruct (nodes (_graph datatree)) as [|n ns]; [constructor|].
  assert (NoDup (filter (λ k, Some k ≠ root_node_name datatree) (n :: ns)))
    as Hf by by apply NoDup_filter.
  destruct (root_node_name datatree) as [r|]; [|done].
  destruct (truthy (Some r)); [|done].
  apply NoDup_app. split_and!; [apply NoDup_singleton | | done].
  intros x ->%list_elem_of_singleton [Hx _]%list_elem_of_filter. done.
Qed.

(** X3.  The [KeyError] of a missing subspace names the first key without
    a subspace in the order of the lookups: the root before every node,
    then the nodes in the order of the iteration. *)
Theorem first_missing_subspace_is_raised py datatree fontname fontsize
    l1 k l2 :
  viz_installed py = true →
  lookup_order datatree = l1 ++ k :: l2 →
  (∀ j, j ∈ l1 → is_Some (subspaces datatree !! j)) →
  subspaces datatree !! k = None →
  make_graph py datatree fontname fontsize = Raise (KeyError k).
Proof.
  intros Hviz Hl Hall Hk. apply make_graph_Raise; [done|].
  unfold g_nodes_of. rewrite init_nodes_as_lookups, Hl.
  by rewrite lookups_first_missing.
Qed.

Lemma first_missing_subspace_is_raised_witness :
  make_graph py_fifo tree_no_subspace "Arial" 12 = Raise (KeyError "B").
Proof.
  apply (first_missing_subspace_is_raised py_fifo tree_no_subspace "Arial" 12
           ["A"] "B" []).
  - reflexivity.
  - vm_compute. reflexivity.
  - intros j Hj. apply list_elem_of_singleton in Hj. subst j.
    vm_compute. eexists. reflexivity.
  - vm_compute. reflexivity.
Defined.

(** X4.  When every lookup of the first loop succeeds, the first
    relationship whose parent is not a key of [g_nodes] makes line 39 raise
    the [KeyError] of that parent; the relationships before it are
    processed, the ones after it are not reached. *)
Theorem first_unknown_parent_is_raised py datatree fontname fontsize
    e1 rel e2 :
  viz_installed py = true →
  (∀ k, k ∈ lookup_order datatree → is_Some (subspaces datatree !! k)) →
  edges (_graph datatree) = e1 ++ rel :: e2 →
  (∀ r, r ∈ e1 → parent_data r ∈ lookup_order datatree) →
  parent_data rel ∉ lookup_order datatree →
  make_graph py datatree fontname fontsize
  = Raise (KeyError (parent_data rel)).
Proof.
  intros Hviz Hall Hes He1 Hrel. apply make_graph_Raise; [done|].
  unfold g_nodes_of, collect_vars.
  destruct (lookups_Ok datatree _ [] Hall) as [g0 H0].
  rewrite <- init_nodes_as_lookups in H0. rewrite H0, Hes. cbn.
  apply init_nodes_lookup_keys in H0 as (_ & Hkeys & _).
  apply add_vars_first_missing.
  - intros r Hr. by apply Hkeys, He1.
  - by rewrite Hkeys.
Qed.

Lemma first_unknown_parent_is_raised_witness :
  make_graph py_fifo tree_orphan "Arial" 12 = Raise (KeyError "A").
Proof.
  apply (first_unknown_parent_is_raised py_fifo tree_orphan "Arial" 12
           [] (mk_rel "A" "idvar" "B" "bid" "label") []).
  - reflexivity.
  - intros k Hk. vm_compute in Hk. apply list_elem_of_singleton in Hk.
    subst k. vm_compute. eexists. reflexivity.
  - reflexivity.
  - intros r Hr. by apply elem_of_nil in Hr.
  - vm_compute. intros Hin. apply list_elem_of_singleton in Hin.
    discriminate Hin.
Defined.

(** X5.  A graph without nodes consults neither the root nor [subspaces]:
    without relationships the result is the empty graph, and with
    relationships line 39 raises the [KeyError] of the first parent. *)
Theorem no_nodes_no_lookups py datatree fontname fontsize :
  viz_installed py = true →
  nodes (_graph datatree) = [] →
  (edges (_graph datatree) = [] →
   make_graph py datatree fontname fontsize
   = Ok (diagram py fontname fontsize [] []))
  ∧ (∀ rel es, edges (_graph datatree) = rel :: es →
       make_graph py datatree fontname fontsize
       = Raise (KeyError (parent_data rel))).
Proof.
  intros Hviz Hns. rewrite make_graph_unfold, Hviz.
  unfold g_nodes_of, init_nodes, collect_vars. rewrite Hns. cbn. split.
  - by intros ->.
  - by intros rel es ->.
Qed.

Lemma no_nodes_no_lookups_witness :
  make_graph py_fifo (mk_tree [] [] [] (Some "A")) "Arial" 12
  = Ok (diagram py_fifo "Arial" 12 [] []).
Proof.
  by apply (no_nodes_no_lookups py_fifo (mk_tree [] [] [] (Some "A"))
              "Arial" 12 eq_refl eq_refl).
Defined.

(** X6.  When the node iteration yields no node twice, the nodes of the
    result are added in the order of the lookups: the root first, then the
    other graph nodes in the order of the iteration. *)
Theorem nodes_added_in_lookup_order py datatree fontname fontsize g :
  make_graph py datatree fontname fontsize = Ok g →
  NoDup (nodes (_graph datatree)) →
  node_ids g = lookup_order datatree.
Proof.
  intros (_ & gn & Hgn & ->)%make_graph_Ok Hnd. rewrite node_ids_diagram.
  apply g_nodes_of_Ok in Hgn as (g0 & H0 & _ & ->).
  rewrite init_nodes_as_lookups in H0.
  apply lookups_keys_fresh in H0; [done | by apply lookup_order_NoDup |].
  intros k _. apply not_elem_of_nil.
Qed.

Lemma nodes_added_in_lookup_order_witness :
  ∃ g, make_graph py_fifo (tree_AB (Some "B")) "Arial" 12 = Ok g
       ∧ node_ids g = ["B"; "A"].
Proof.
  eexists. split; [vm_compute; reflexivity|].
  rewrite (nodes_added_in_lookup_order py_fifo (tree_AB (Some "B")) "Arial" 12
             _ ltac:(vm_compute; reflexivity)).
  - vm_compute. reflexivity.
  - apply NoDup_cons. split; [|apply NoDup_singleton].
    intros Hin. apply list_elem_of_singleton in Hin. discriminate Hin.
Defined.

(** The value of a key of [g_nodes] when both loops are over. *)
Lemma g_nodes_entry datatree gn k v :
  g_nodes_of datatree = Ok gn →
  (k, v) ∈ gn →
  ∃ s, subspaces datatree !! k = Some s
       ∧ dims v = subspace_dims s
       ∧ NoDup (vars v)
       ∧ ∀ x, x ∈ vars v ↔
              ∃ rel, rel ∈ edges (_graph datatree)
                     ∧ parent_data rel = k ∧ parent_name rel = x.
Proof.
  intros (g0 & H0 & Hcollect & Hkeys)%g_nodes_of_Ok Hin.
  pose proof H0 as (_ & _ & Hnd)%init_nodes_lookup_keys.
  rewrite <- Hkeys in Hnd. apply (dict_get_elem _ _ _ Hnd) in Hin.
  destruct (add_vars_entries _ _ _ Hcollect k v Hin)
    as (v0 & Hget0 & Hdims & Hvars & Hndv).
  rewrite init_nodes_as_lookups in H0.
  destruct (lookups_entries _ _ _ _ H0 k v0 Hget0) as [Hnil|(s & Hs & ->)];
    [done|].
  exists s. split_and!; [done | done | apply Hndv; constructor |].
  intros x. rewrite Hvars. cbn. rewrite elem_of_nil. naive_solver.
Qed.

(** X7.  In the dictionary that the labels are drawn from, the value of a
    dataset holds the dimensions of its subspace, and as variables exactly
    the parent names of the relationships that leave the dataset, each
    once, however often a relationship repeats a name. *)
Theorem node_variables_are_parent_names datatree gn k v :
  g_nodes_of datatree = Ok gn →
  (k, v) ∈ gn →
  ∃ s, subspaces datatree !! k = Some s
       ∧ dims v = subspace_dims s
       ∧ NoDup (vars v)
       ∧ ∀ x, x ∈ vars v ↔
              ∃ rel, rel ∈ edges (_graph datatree)
                     ∧ parent_data rel = k ∧ parent_name rel = x.
Proof.
  intros (g0 & H0 & Hcollect & Hkeys)%g_nodes_of_Ok Hin.
  pose proof H0 as (_ & _ & Hnd)%init_nodes_lookup_keys.
  rewrite <- Hkeys in Hnd. apply (dict_get_elem _ _ _ Hnd) in Hin.
  destruct (add_vars_entries _ _ _ Hcollect k v Hin)
    as (v0 & Hget0 & Hdims & Hvars & Hndv).
  rewrite init_nodes_as_lookups in H0.
  destruct (lookups_entries _ _ _ _ H0 k v0 Hget0) as [Hnil|(s & Hs & ->)];
    [done|].
  exists s. split_and!; [done | done | apply Hndv; constructor |].
  intros x. rewrite Hvars. cbn. rewrite elem_of_nil. naive_solver.
Qed.

Lemma node_variables_are_parent_names_witness :
  ∃ v, g_nodes_of tree_parallel = Ok [("A", v); ("B", fresh_node {| subspace_dims := ["bid"] |})]
       ∧ dims v = ["id"] ∧ "offset" ∈ vars v ∧ "bid" ∉ vars v.
Proof.
  eexists. split; [vm_compute; reflexivity|].
  destruct (node_variables_are_parent_names tree_parallel _ "A" _
              ltac:(vm_compute; reflexivity)
              ltac:(apply elem_of_cons; left; reflexivity))
    as (s & Hs & Hdims & _ & Hvars).
  vm_compute in Hs. injection Hs as <-. split_and!.
  - exact Hdims.
  - apply Hvars. exists (mk_rel "A" "offset" "B" "bid" "position").
    split_and!; [|reflexivity..].
    apply elem_of_cons; right. apply list_elem_of_singleton. reflexivity.
  - intros (rel & Hrel & _ & Hname)%Hvars.
    apply elem_of_cons in Hrel as [->|Hrel]; [discriminate Hname|].
    apply list_elem_of_singleton in Hrel as ->. discriminate Hname.
Defined.

(** ** The emitted graph *)

(** X8.  The calls [make_graph] issues.  The graph is created non-strict
    with [rankdir] LR, and a build that gets through issues exactly one
    [add_edge] call per relationship, in the order of the relationships:
    the call names the parent dataset as tail and the child dataset as
    head (the same node twice for a relationship of a dataset with
    itself), the port [var] followed by the parent name as tail port, the
    port [dim] followed by the child name as head port, and the direction
    [forward].  Every [add_node] call asks for a [plaintext] node with the
    font passed to [make_graph]. *)
Theorem one_forward_edge_per_relationship py datatree fontname fontsize g :
  make_graph py datatree fontname fontsize = Ok g →
  rankdir g = "LR" ∧ strict g = false
  ∧ length (ag_edges g) = length (edges (_graph datatree))
  ∧ (∀ i rel, edges (_graph datatree) !! i = Some rel →
       ∃ e, ag_edges g !! i = Some e
            ∧ tail e = parent_data rel ∧ head e = child_data rel
            ∧ tailport e = "var" +:+ parent_name rel
            ∧ headport e = "dim" +:+ child_name rel
            ∧ dir e = "forward"
            ∧ (parent_data rel = child_data rel → tail e = head e))
  ∧ Forall (λ n, shape n = "plaintext" ∧ node_fontname n = fontname
                 ∧ node_fontsize n = fontsize) (ag_nodes g).
Proof.
  intros (_ & gn & _ & ->)%make_graph_Ok. split_and!; [done | done | | |].
  - cbn. by rewrite length_fmap.
  - intros i rel Hi. exists (edge_of py rel).
    split_and!; [by apply diagram_edge_lookup | done..].
  - cbn. apply Forall_fmap, Forall_forall. by intros [k v] _.
Qed.

Lemma one_forward_edge_per_relationship_witness :
  ∃ g e, make_graph py_fifo tree_loop "Arial" 12 = Ok g
         ∧ ag_edges g = [e] ∧ tail e = "A" ∧ head e = "A"
         ∧ dir e = "forward".
Proof.
  eexists.
  destruct (one_forward_edge_per_relationship py_fifo tree_loop "Arial" 12 _
              ltac:(vm_compute; reflexivity)) as (_ & _ & _ & Hedge & _).
  destruct (Hedge 0 (mk_rel "A" "next" "A" "id" "position") eq_refl)
    as (e & He & Htail & Hhead & _ & _ & Hdir & _).
  injection He as <-. eexists.
  split_and!; [vm_compute; reflexivity | reflexivity | exact Htail
               | exact Hhead | exact Hdir].
Defined.

(** X9.  Port names are faithful to the names they are made from: two
    edges leave from the same port exactly when their parent names are
    equal, arrive at the same port exactly when their child names are
    equal, and a tail port is never a head port. *)
Theorem ports_follow_names py rel1 rel2 :
  (tailport (edge_of py rel1) = tailport (edge_of py rel2) ↔
   parent_name rel1 = parent_name rel2)
  ∧ (headport (edge_of py rel1) = headport (edge_of py rel2) ↔
     child_name rel1 = child_name rel2)
  ∧ tailport (edge_of py rel1) ≠ headport (edge_of py rel2).
Proof.
  cbn. split_and!.
  - split; [intros [= Heq]; done | by intros ->].
  - split; [intros [= Heq]; done | by intros ->].
  - discriminate.
Qed.

(** X10.  The tail port of every edge is backed by the dictionary: the
    parent dataset has an entry in [g_nodes] and the parent name is one of
    its variables.  When the entry has a dimension and no name is the
    empty string, the label of the parent has a row whose variable cell
    carries that name. *)
Theorem tail_port_has_its_cell py datatree gn rel :
  g_nodes_of datatree = Ok gn →
  rel ∈ edges (_graph datatree) →
  (∀ s, set_iter py s ≡ₚ s) →
  ∃ v, (parent_data rel, v) ∈ gn
       ∧ parent_name rel ∈ vars v
       ∧ (dims v ≠ [] → EmptyString ∉ dims v → EmptyString ∉ vars v →
          ∃ row, row ∈ node_rows py v
                 ∧ row_var row = Some (parent_name rel)).
Proof.
  intros Hgn Hrel Hperm.
  pose proof Hgn as (g0 & _ & Hcollect & Hkeys)%g_nodes_of_Ok.
  pose proof (add_var_loop_parents _ _ _ _ Hcollect Hrel) as Hparent.
  rewrite <- Hkeys in Hparent.
  apply dict_get_is_Some in Hparent as [v Hget].
  apply dict_get_Some in Hget. exists v.
  destruct (g_nodes_entry _ _ _ _ Hgn Hget) as (s & _ & _ & _ & Hvars).
  assert (parent_name rel ∈ vars v) as Hname by (apply Hvars; eauto).
  split_and!; [done | done |]. intros Hdims Hd Hv. unfold node_rows.
  rewrite bool_decide_eq_true_2 by (destruct (dims v); [done | cbn; lia]).
  rewrite bool_decide_eq_true_2
    by (destruct (vars v); [by apply elem_of_nil in Hname | cbn; lia]).
  cbn [andb].
  assert (EmptyString ∉ set_iter py (vars v)) as Hv' by by rewrite Hperm.
  destruct (zip_longest_columns (dims v) (set_iter py (vars v)) Hd Hv')
    as [_ Hcells].
  assert (parent_name rel
          ∈ omap row_var
              (pair_row <$> zip_longest EmptyString (dims v)
                              (set_iter py (vars v)))) as Hin
    by by rewrite Hcells, Hperm.
  apply list_elem_of_omap in Hin as (row & Hrow & Hvar).
  exists row. split; [|done]. by apply list_elem_of_further.
Qed.

Lemma tail_port_has_its_cell_witness :
  ∃ v row, dims v = ["id"] ∧ row ∈ node_rows py_lifo v
           ∧ row_var row = Some "offset".
Proof.
  destruct (tail_port_has_its_cell py_lifo tree_parallel _
              (mk_rel "A" "offset" "B" "bid" "position")
              ltac:(vm_compute; reflexivity)) as (v & Hv & _ & Hrow).
  - apply elem_of_cons; right. apply list_elem_of_singleton. reflexivity.
  - intros s. apply reverse_Permutation.
  - apply elem_of_cons in Hv as [Hv|Hv];
      [|apply list_elem_of_singleton in Hv; discriminate Hv].
    injection Hv as ->. destruct Hrow as (row & Hrow & Hvar).
    + discriminate.
    + intros Hin. apply list_elem_of_singleton in Hin. discriminate Hin.
    + intros Hin. apply elem_of_cons in Hin as [Hin|Hin]; [discriminate Hin|].
      apply list_elem_of_singleton in Hin. discriminate Hin.
    + exists {| dims := ["id"]; vars := ["idvar"; "offset"] |}, row.
      split_and!; [reflexivity | exact Hrow | exact Hvar].
Defined.

(** ** More on the rows of a label *)

(** X11.  A label has no row when the node has no dimension, and otherwise
    one header row followed by [max k m] attribute rows, for [k] dimensions
    and [m] variables, whatever the names are. *)
Theorem label_row_count py v :
  length (set_iter py (vars v)) = length (vars v) →
  length (node_rows py v)
  = match dims v with
    | [] => 0
    | _ :: _ => S (length (dims v) `max` length (vars v))
    end
  ∧ length (attribute_rows (node_rows py v))
    = match dims v with
      | [] => 0
      | _ :: _ => length (dims v) `max` length (vars v)
      end.
Proof.
  intros Hlen. unfold node_rows.
  destruct (dims v) as [|d ds] eqn:Hdims; [done|].
  rewrite (bool_decide_eq_true_2 (0 < length (d :: ds))) by (cbn; lia).
  cbn [andb]. destruct (vars v) as [|x xs] eqn:Hvars.
  - rewrite bool_decide_eq_false_2 by (cbn; lia).
    rewrite bool_decide_eq_true_2 by done. split.
    + cbn. rewrite length_fmap. lia.
    + unfold attribute_rows. rewrite filter_cons_False by done.
      fold (attribute_rows (SingleDimRow <$> d :: ds)).
      rewrite attribute_rows_all by done. rewrite length_fmap. cbn. lia.
  - rewrite bool_decide_eq_true_2 by (cbn; lia). split.
    + cbn [length]. by rewrite length_fmap, zip_longest_length, Hlen.
    + unfold attribute_rows. rewrite filter_cons_False by done.
      fold (attribute_rows
              (pair_row <$> zip_longest EmptyString (d :: ds)
                              (set_iter py (x :: xs)))).
      rewrite attribute_rows_all by apply pair_row_attribute.
      by rewrite length_fmap, zip_longest_length, Hlen.
Qed.

Lemma label_row_count_witness :
  length (node_rows py_lifo {| dims := ["id"]; vars := ["a"; "b"; "c"] |}) = 4.
Proof.
  by destruct (label_row_count py_lifo
                 {| dims := ["id"]; vars := ["a"; "b"; "c"] |} eq_refl)
    as [-> _].
Defined.

Lemma zip_longest_dim_cells xs ys :
  omap row_dim (pair_row <$> zip_longest EmptyString xs ys)
  = filter (λ d, d ≠ EmptyString) xs.
Proof.
  revert ys. induction xs as [|x xs IH]; intros ys.
  - cbn. induction ys as [|y ys IHy]; [done|]. cbn in *. apply IHy.
  - destruct (decide (x = EmptyString)) as [->|Hx].
    + rewrite filter_cons_False by (intros Hne; by apply Hne).
      destruct ys as [|y ys]; cbn; apply IH.
    + rewrite filter_cons_True by done.
      destruct ys as [|y ys]; cbn [zip_longest fmap list_fmap pair_row].
      * rewrite bool_decide_eq_false_2 by done. cbn. f_equal. apply IH.
      * rewrite bool_decide_eq_false_2 by done.
        destruct (bool_decide (y = EmptyString)); cbn; f_equal; apply IH.
Qed.

Lemma node_rows_dim_cells py v :
  omap row_dim (node_rows py v)
  = match vars v with
    | [] => dims v
    | _ :: _ => filter (λ d, d ≠ EmptyString) (dims v)
    end.
Proof.
  unfold node_rows. destruct (dims v) as [|d ds] eqn:Hdims.
  - cbn. by destruct (vars v).
  - rewrite (bool_decide_eq_true_2 (0 < length (d :: ds))) by (cbn; lia).
    cbn [andb]. destruct (vars v) as [|x xs] eqn:Hvars.
    + rewrite bool_decide_eq_false_2 by (cbn; lia).
      rewrite bool_decide_eq_true_2 by done.
      cbn [omap list_omap row_dim]. apply single_rows_columns.
    + rewrite bool_decide_eq_true_2 by (cbn; lia).
      cbn [omap list_omap row_dim]. apply zip_longest_dim_cells.
Qed.

(** X12.  The dimension cells of a label.  Without variables every
    dimension has its cell, in order.  With variables the padding of
    [zip_longest] is told from a name by comparing with the empty string,
    so the dimension cells are the dimensions whose name is not empty, in
    order: a dimension named by the empty string gets no cell. *)
Theorem label_dimension_cells py v :
  omap row_dim (node_rows py v)
  = match vars v with
    | [] => dims v
    | _ :: _ => filter (λ d, d ≠ EmptyString) (dims v)
    end.
Proof.
  unfold node_rows. destruct (dims v) as [|d ds] eqn:Hdims.
  - cbn. by destruct (vars v).
  - rewrite (bool_decide_eq_true_2 (0 < length (d :: ds))) by (cbn; lia).
    cbn [andb]. destruct (vars v) as [|x xs] eqn:Hvars.
    + rewrite bool_decide_eq_false_2 by (cbn; lia).
      rewrite bool_decide_eq_true_2 by done.
      cbn [omap list_omap row_dim]. apply single_rows_columns.
    + rewrite bool_decide_eq_true_2 by (cbn; lia).
      cbn [omap list_omap row_dim]. apply zip_longest_dim_cells.
Qed.

(** X13.  Where C1 holds: for a node with at least one dimension and no
    empty name, the label has [max k m] attribute rows, its dimension cells
    are the dimensions in order, and its variable cells are the variables
    in the order of the set iteration, each variable once. *)
Theorem label_covers_node py v :
  (∀ s, set_iter py s ≡ₚ s) →
  dims v ≠ [] → EmptyString ∉ dims v → EmptyString ∉ vars v →
  length (attribute_rows (node_rows py v))
  = length (dims v) `max` length (vars v)
  ∧ omap row_dim (node_rows py v) = dims v
  ∧ omap row_var (node_rows py v) = set_iter py (vars v)
  ∧ omap row_var (node_rows py v) ≡ₚ vars v.
Proof.
  intros Hperm Hdims Hd Hv.
  destruct (node_rows_cover py v Hperm Hdims Hd Hv)
    as (Hcount & Hdcells & Hvcells & Hp).
  split_and!; [done..|]. by rewrite Hvcells.
Qed.

Lemma label_covers_node_witness :
  omap row_var (node_rows py_lifo {| dims := ["id"]; vars := ["a"; "b"] |})
  = ["b"; "a"].
Proof.
  destruct (label_covers_node py_lifo {| dims := ["id"]; vars := ["a"; "b"] |})
    as (_ & _ & Hcells & _).
  - intros s. apply reverse_Permutation.
  - discriminate.
  - intros Hin. apply list_elem_of_singleton in Hin. discriminate Hin.
  - intros Hin. apply elem_of_cons in Hin as [Hin|Hin]; [discriminate Hin|].
    apply list_elem_of_singleton in Hin. discriminate Hin.
  - rewrite Hcells. reflexivity.
Defined.

(** ** What the labels depend on *)

Lemma add_var_parent_ext rel1 rel2 (g : list (string * GNode)) :
  parent_data rel1 = parent_data rel2 →
  parent_name rel1 = parent_name rel2 →
  add_var rel1 g = add_var rel2 g.
Proof. intros Hd Hn. rewrite !add_var_unfold. by rewrite Hd, Hn. Qed.

Lemma add_vars_parent_ext es1 es2 (g : list (string * GNode)) :
  (λ rel, (parent_data rel, parent_name rel)) <$> es1
  = (λ rel, (parent_data rel, parent_name rel)) <$> es2 →
  for_each es1 g add_var = for_each es2 g add_var.
Proof.
  revert es2 g. induction es1 as [|r1 es1 IH]; intros [|r2 es2] g Heq;
    try done.
  cbn in Heq. injection Heq as Hd Hn Hrest. cbn.
  rewrite (add_var_parent_ext r1 r2) by done.
  destruct (add_var r2 g); cbn; [by apply IH | done].
Qed.

(** X14.  The nodes of the result depend on the relationships only through
    the parent dataset and the parent name of each: two data trees with the
    same nodes, subspaces and root whose relationships agree on these two
    fields build the same dictionary and the same labelled nodes, whatever
    the child datasets, child names and indexing are. *)
Theorem labels_ignore_the_child_side py datatree1 datatree2
    fontname fontsize g1 g2 :
  nodes (_graph datatree1) = nodes (_graph datatree2) →
  subspaces datatree1 = subspaces datatree2 →
  root_node_name datatree1 = root_node_name datatree2 →
  (λ rel, (parent_data rel, parent_name rel)) <$> edges (_graph datatree1)
  = (λ rel, (parent_data rel, parent_name rel)) <$> edges (_graph datatree2) →
  make_graph py datatree1 fontname fontsize = Ok g1 →
  make_graph py datatree2 fontname fontsize = Ok g2 →
  g_nodes_of datatree1 = g_nodes_of datatree2
  ∧ ag_nodes g1 = ag_nodes g2.
Proof.
  intros Hns Hsub Hroot Hes (_ & gn1 & Hgn1 & ->)%make_graph_Ok
    (_ & gn2 & Hgn2 & ->)%make_graph_Ok.
  assert (g_nodes_of datatree1 = g_nodes_of datatree2) as Hsame.
  { unfold g_nodes_of, collect_vars.
    destruct datatree1 as [[ns1 es1] subs1 root1],
             datatree2 as [[ns2 es2] subs2 root2].
    cbn in Hns, Hsub, Hroot, Hes. subst ns2 subs2 root2.
    change (init_nodes {| _graph := {| nodes := ns1; edges := es2 |};
                          subspaces := subs1; root_node_name := root1 |})
      with (init_nodes {| _graph := {| nodes := ns1; edges := es1 |};
                          subspaces := subs1; root_node_name := root1 |}).
    destruct (init_nodes _) as [g0|e]; [|done]. cbn.
    by apply add_vars_parent_ext. }
  split; [done|]. rewrite Hgn1, Hgn2 in Hsame. by injection Hsame as ->.
Qed.

Lemma labels_ignore_the_child_side_witness :
  ∃ g1 g2,
    make_graph py_fifo (tree_AB None) "Arial" 12 = Ok g1
    ∧ make_graph py_fifo tree_nearest "Arial" 12 = Ok g2
    ∧ ag_nodes g1 = ag_nodes g2.
Proof.
  eexists _, _. split; [vm_compute; reflexivity|].
  split; [vm_compute; reflexivity|].
  by destruct (labels_ignore_the_child_side py_fifo (tree_AB None) tree_nearest
                 "Arial" 12 _ _ eq_refl eq_refl eq_refl eq_refl
                 ltac:(vm_compute; reflexivity) ltac:(vm_compute; reflexivity))
    as [_ ->].
Defined.

(** X15.  A dataset that is the parent of no relationship has no variable,
    and its label is the single-column table: the DIMENSIONS header and one
    row per dimension, or no row at all when it has no dimension. *)
Theorem node_without_relationship_lists_dimensions py datatree gn k v :
  g_nodes_of datatree = Ok gn →
  (k, v) ∈ gn →
  (∀ rel, rel ∈ edges (_graph datatree) → parent_data rel ≠ k) →
  vars v = []
  ∧ node_rows py v
    = match dims v with
      | [] => []
      | _ :: _ => HeaderDims :: (SingleDimRow <$> dims v)
      end.
Proof.
  intros Hgn Hin Hnone.
  destruct (g_nodes_entry _ _ _ _ Hgn Hin) as (s & _ & _ & _ & Hvars).
  assert (vars v = []) as Hv.
  { destruct (vars v) as [|x xs]; [done|].
    destruct (proj1 (Hvars x)) as (rel & Hrel & Hk & _); [set_solver|].
    by destruct (Hnone rel Hrel). }
  split; [done|]. unfold node_rows. rewrite Hv.
  destruct (dims v) as [|d ds]; [done|].
  rewrite (bool_decide_eq_true_2 (0 < length (d :: ds))) by (cbn; lia).
  by rewrite bool_decide_eq_false_2 by (cbn; lia).
Qed.

Lemma node_without_relationship_lists_dimensions_witness :
  node_rows py_fifo {| dims := ["bid"]; vars := [] |}
  = [HeaderDims; SingleDimRow "bid"].
Proof.
  destruct (node_without_relationship_lists_dimensions py_fifo tree_parallel
              _ "B" {| dims := ["bid"]; vars := [] |}
              ltac:(vm_compute; reflexivity)) as [_ Hrows].
  - apply elem_of_cons; right. apply list_elem_of_singleton. reflexivity.
  - intros rel Hrel.
    apply elem_of_cons in Hrel as [->|Hrel]; [discriminate|].
    apply list_elem_of_singleton in Hrel as ->. discriminate.
  - exact Hrows.
Defined.

(** ** Ports in the text of a label *)

Lemma string_app_assoc (s1 s2 s3 : string) :
  (s1 +:+ s2) +:+ s3 = s1 +:+ s2 +:+ s3.
Proof.
  induction s1 as [|c s1 IH]; [done|].
  change (String c ((s1 +:+ s2) +:+ s3) = String c (s1 +:+ s2 +:+ s3)).
  by rewrite IH.
Qed.

Lemma string_app_nil_r (s : string) : s +:+ EmptyString = s.
Proof.
  induction s as [|c s IH]; [done|].
  change (String c (s +:+ EmptyString) = String c s). by rewrite IH.
Qed.

Lemma contains_refl s : contains s s.
Proof. exists EmptyString, EmptyString. by rewrite string_app_nil_r. Qed.

Lemma contains_app_l a b sub : contains a sub → contains (a +:+ b) sub.
Proof.
  intros (pre & post & ->). exists pre, (post +:+ b).
  by rewrite !string_app_assoc.
Qed.

Lemma contains_app_r a b sub : contains b sub → contains (a +:+ b) sub.
Proof.
  intros (pre & post & ->). exists (a +:+ pre), post.
  by rewrite !string_app_assoc.
Qed.

Lemma contains_concat sep l x sub :
  x ∈ l → contains x sub → contains (String.concat sep l) sub.
Proof.
  intros Hin Hx. induction l as [|y l IH]; [by apply elem_of_nil in Hin|].
  apply elem_of_cons in Hin as [->|Hin].
  - destruct l; cbn; [done | by apply contains_app_l].
  - destruct l as [|z l]; [by apply elem_of_nil in Hin|].
    change (String.concat sep (y :: z :: l))
      with (y +:+ sep +:+ String.concat sep (z :: l)).
    by apply contains_app_r, contains_app_r, IH.
Qed.

(** Finds the operand of a chain of appends that [tac] proves to contain
    the text looked for. *)
Ltac in_chain tac :=
  first [ solve [tac]
        | solve [apply contains_app_l; tac]
        | apply contains_app_r; in_chain tac ].

Lemma td_port_contains kind name :
  contains (td_port kind name) (attr "PORT" (kind +:+ name)).
Proof. unfold td_port. in_chain ltac:(apply contains_refl). Qed.

Lemma block_contains ind lines line sub :
  line ∈ lines → contains line sub → contains (block ind lines) sub.
Proof.
  intros Hin Hline. unfold block. apply contains_app_r, contains_app_l.
  apply (contains_concat _ _ (spaces ind +:+ line +:+ nl)).
  - by apply (list_elem_of_fmap_2 (λ l, spaces ind +:+ l +:+ nl)).
  - by apply contains_app_r, contains_app_l.
Qed.

Lemma render_row_ports small row :
  (∀ d, row_dim row = Some d →
        contains (render_row small row) (attr "PORT" ("dim" +:+ d)))
  ∧ (∀ x, row_var row = Some x →
          contains (render_row small row) (attr "PORT" ("var" +:+ x))).
Proof.
  split; intros y Hy; destruct row; cbn in Hy; try done;
    injection Hy as ->; cbn [render_row];
    (eapply block_contains; [|apply td_port_contains]); set_solver.
Qed.

Lemma node_label_contains_row py small k v row sub :
  row ∈ node_rows py v → contains (render_row small row) sub →
  contains (node_label py small k v) sub.
Proof.
  intros Hrow Hsub. unfold node_label.
  in_chain ltac:(apply (contains_concat _ _ (render_row small row));
                 [by apply list_elem_of_fmap_2 | done]).
Qed.

(** X16.  The cells of a label are addressable: the text of the label
    holds the attribute [PORT="f0"] of its title cell, and for every row
    the attribute [PORT="dim<name>"] of its dimension and
    [PORT="var<name>"] of its variable. *)
Theorem label_text_has_the_ports py small k v :
  contains (node_label py small k v) (attr "PORT" "f0")
  ∧ ∀ row, row ∈ node_rows py v →
      (∀ d, row_dim row = Some d →
            contains (node_label py small k v) (attr "PORT" ("dim" +:+ d)))
      ∧ (∀ x, row_var row = Some x →
              contains (node_label py small k v) (attr "PORT" ("var" +:+ x))).
Proof.
  split.
  - unfold node_label. in_chain ltac:(apply contains_refl).
  - intros row Hrow. destruct (render_row_ports small row) as [Hd Hv].
    split; intros y Hy; apply (node_label_contains_row _ _ _ _ row); auto.
Qed.

Lemma variable_has_its_row py v x :
  (∀ s, set_iter py s ≡ₚ s) →
  dims v ≠ [] → EmptyString ∉ dims v → EmptyString ∉ vars v →
  x ∈ vars v →
  ∃ row, row ∈ node_rows py v ∧ row_var row = Some x.
Proof.
  intros Hperm Hdims Hd Hv Hx.
  destruct (node_rows_cover py v Hperm Hdims Hd Hv) as (_ & _ & Hcells & Hp).
  rewrite <- Hp, <- Hcells in Hx. by apply list_elem_of_omap in Hx.
Qed.

(** X17.  Edges meet labels.  For a relationship whose parent dataset has
    at least one dimension and no empty name, the result holds a node for
    the tail of the edge, and the text of its label declares the very port
    the edge leaves from. *)
Theorem edge_leaves_from_a_declared_port py datatree fontname fontsize
    g gn rel v :
  make_graph py datatree fontname fontsize = Ok g →
  g_nodes_of datatree = Ok gn →
  rel ∈ edges (_graph datatree) →
  (parent_data rel, v) ∈ gn →
  (∀ s, set_iter py s ≡ₚ s) →
  dims v ≠ [] → EmptyString ∉ dims v → EmptyString ∉ vars v →
  edge_of py rel ∈ ag_edges g
  ∧ ∃ n, n ∈ ag_nodes g
         ∧ node_id n = tail (edge_of py rel)
         ∧ contains (label n) (attr "PORT" (tailport (edge_of py rel))).
Proof.
  intros (_ & gn' & Hgn' & ->)%make_graph_Ok Hgn Hrel Hin Hperm Hdims Hd Hv.
  rewrite Hgn in Hgn'. injection Hgn' as <-. split.
  { cbn. by apply list_elem_of_fmap_2. }
  exists (node_of py fontname fontsize (parent_data rel, v)).
  split_and!; [cbn; by apply list_elem_of_fmap_2 | done |].
  destruct (g_nodes_entry _ _ _ _ Hgn Hin) as (s & _ & _ & _ & Hvars).
  destruct (variable_has_its_row py v (parent_name rel))
    as (row & Hrow & Hvar); [done.. | apply Hvars; eauto |].
  cbn [label node_of fst snd tailport edge_of].
  apply (node_label_contains_row _ _ _ _ row); [done|].
  by apply render_row_ports.
Qed.

Lemma edge_leaves_from_a_declared_port_witness :
  ∃ g n, make_graph py_fifo (tree_AB None) "Arial" 12 = Ok g
         ∧ n ∈ ag_nodes g ∧ node_id n = "A"
         ∧ contains (label n) (attr "PORT" "varidvar").
Proof.
  eexists.
  destruct (edge_leaves_from_a_declared_port py_fifo (tree_AB None) "Arial" 12
              _ _ (mk_rel "A" "idvar" "B" "bid" "label")
              {| dims := ["id"]; vars := ["idvar"] |}
              ltac:(vm_compute; reflexivity) ltac:(vm_compute; reflexivity))
    as (_ & n & Hn & Hid & Hport).
  - apply list_elem_of_singleton. reflexivity.
  - apply elem_of_cons; left. reflexivity.
  - intros s. reflexivity.
  - discriminate.
  - intros Hin. apply list_elem_of_singleton in Hin. discriminate Hin.
  - intros Hin. apply list_elem_of_singleton in Hin. discriminate Hin.
  - exists n. split_and!; [vm_compute; reflexivity | exact Hn | exact Hid
                           | exact Hport].
Defined.

(** X18.  [node_label_simple] gives every dimension and every variable of
    the node its field, [<dim name>name] or [<var name>name], and the
    title its field [<f0>]: no name is left out, whether or not the other
    side is empty. *)
Theorem simple_label_lists_every_name py k v :
  (∀ s, set_iter py s ≡ₚ s) →
  contains (node_label_simple py k v) ("<f0>" +:+ k)
  ∧ (∀ d, d ∈ dims v →
          contains (node_label_simple py k v) ("<dim" +:+ d +:+ ">" +:+ d))
  ∧ (∀ x, x ∈ vars v →
          contains (node_label_simple py k v) ("<var" +:+ x +:+ ">" +:+ x)).
Proof.
  intros Hperm. unfold node_label_simple. cbn zeta. split_and!.
  - exists EmptyString. eexists. cbn [String.append].
    by rewrite string_app_assoc.
  - intros d Hd.
    in_chain ltac:(apply (contains_concat _ _ ("<dim" +:+ d +:+ ">" +:+ d));
                   [by apply (list_elem_of_fmap_2 (λ i, "<dim" +:+ i +:+ ">" +:+ i))
                   | apply contains_refl]).
  - intros x Hx. rewrite <- Hperm in Hx.
    in_chain ltac:(apply (contains_concat _ _ ("<var" +:+ x +:+ ">" +:+ x));
                   [by apply (list_elem_of_fmap_2 (λ i, "<var" +:+ i +:+ ">" +:+ i))
                   | apply contains_refl]).
Qed.

Lemma simple_label_lists_every_name_witness :
  contains (node_label_simple py_fifo "A" {| dims := []; vars := ["x"] |})
    "<varx>x".
Proof.
  destruct (simple_label_lists_every_name py_fifo "A"
              {| dims := []; vars := ["x"] |}) as (_ & _ & Hvar).
  - intros s. reflexivity.
  - apply (Hvar "x"). apply list_elem_of_singleton. reflexivity.
Defined.

Lemma dimension_has_its_row py v d :
  d ∈ dims v → d ≠ EmptyString →
  ∃ row, row ∈ node_rows py v ∧ row_dim row = Some d.
Proof.
  intros Hd Hne. apply list_elem_of_omap. rewrite node_rows_dim_cells.
  destruct (vars v); [done|]. by apply list_elem_of_filter.
Qed.

(** X19.  For a relationship whose child dataset is a node of the result
    and whose child name is one of the dimensions of that node, and not
    the empty string, the text of the label of the head node declares the
    very port the edge arrives at. *)
Theorem edge_arrives_at_a_declared_port py datatree fontname fontsize
    g gn rel v :
  make_graph py datatree fontname fontsize = Ok g →
  g_nodes_of datatree = Ok gn →
  rel ∈ edges (_graph datatree) →
  (child_data rel, v) ∈ gn →
  child_name rel ∈ dims v →
  child_name rel ≠ EmptyString →
  edge_of py rel ∈ ag_edges g
  ∧ ∃ n, n ∈ ag_nodes g
         ∧ node_id n = head (edge_of py rel)
         ∧ contains (label n) (attr "PORT" (headport (edge_of py rel))).
Proof.
  intros (_ & gn' & Hgn' & ->)%make_graph_Ok Hgn Hrel Hin Hdim Hne.
  rewrite Hgn in Hgn'. injection Hgn' as <-. split.
  { cbn. by apply list_elem_of_fmap_2. }
  exists (node_of py fontname fontsize (child_data rel, v)).
  split_and!; [cbn; by apply list_elem_of_fmap_2 | done |].
  destruct (dimension_has_its_row py v (child_name rel) Hdim Hne)
    as (row & Hrow & Hcell).
  cbn [label node_of fst snd headport edge_of].
  apply (node_label_contains_row _ _ _ _ row); [done|].
  by apply render_row_ports.
Qed.

Lemma edge_arrives_at_a_declared_port_witness :
  ∃ g n, make_graph py_fifo (tree_AB None) "Arial" 12 = Ok g
         ∧ n ∈ ag_nodes g ∧ node_id n = "B"
         ∧ contains (label n) (attr "PORT" "dimbid").
Proof.
  eexists.
  destruct (edge_arrives_at_a_declared_port py_fifo (tree_AB None) "Arial" 12
              _ _ (mk_rel "A" "idvar" "B" "bid" "label")
              {| dims := ["bid"]; vars := [] |}
              ltac:(vm_compute; reflexivity) ltac:(vm_compute; reflexivity))
    as (_ & n & Hn & Hid & Hport).
  - apply list_elem_of_singleton. reflexivity.
  - apply elem_of_cons; right. apply list_elem_of_singleton. reflexivity.
  - apply list_elem_of_singleton. reflexivity.
  - discriminate.
  - exists n. split_and!; [vm_compute; reflexivity | exact Hn | exact Hid
                           | exact Hport].
Defined.

(** ** Edges that do not resolve *)

Lemma for_each_app {A S} (l1 l2 : list A) (s : S) (body : A → S → result S) :
  for_each (l1 ++ l2) s body = s' ← for_each l1 s body; for_each l2 s' body.
Proof.
  revert s. induction l1 as [|x l1 IH]; intros s; [done|]. cbn.
  destruct (body x s); cbn; [apply IH | done].
Qed.

Lemma for_each_stops {A S} (l1 : list A) x l2 (s : S) (body : A → S → result S) :
  (∀ s', is_ok (body x s') = false) →
  is_ok (for_each (l1 ++ x :: l2) s body) = false.
Proof.
  intros Hx. rewrite for_each_app. destruct (for_each l1 s body) as [s'|e];
    [|done]. cbn. specialize (Hx s'). by destruct (body x s').
Qed.

Lemma supported_indexing_false ix :
  ix ≠ "label" → ix ≠ "position" → supported_indexing ix = false.
Proof.
  intros Hl Hp. unfold supported_indexing.
  by rewrite !bool_decide_eq_false_2.
Qed.

Lemma resolving_vars_loop rels (g : list (string * GNode)) :
  (∀ r, r ∈ rels → supported_indexing (indexing r) = true) →
  for_each (Some <$> rels) g
    (λ e g_nodes, rel ← _get_relationship e; add_var rel g_nodes)
  = for_each rels g add_var.
Proof.
  revert g. induction rels as [|r rels IH]; intros g Hall; [done|]. cbn.
  rewrite (Hall r) by set_solver. cbn.
  destruct (add_var r g); cbn; [|done]. apply IH. set_solver.
Qed.

Lemma resolving_edges_loop py rels (g : AGraph) :
  (∀ r, r ∈ rels → supported_indexing (indexing r) = true) →
  for_each (Some <$> rels) g
    (λ e g, rel ← _get_relationship e; Ok (add_edge (edge_of py rel) g))
  = Ok (foldl (λ g rel, add_edge (edge_of py rel) g) g rels).
Proof.
  revert g. induction rels as [|r rels IH]; intros g Hall; [done|]. cbn.
  rewrite (Hall r) by set_solver. cbn. apply IH. set_solver.
Qed.

(** C4.  With the resolution of an edge as the spec gives it, an edge whose
    stored indexing is neither ["label"] nor ["position"] is fatal: the
    build returns no graph, so no arrowhead is chosen for it by default;
    and when nothing fails before the edge is reached (pygraphviz is
    installed, every lookup of the first loop succeeds, and the edges
    before it resolve to relationships with a known parent), the build
    raises the [UnsupportedIndexingError] of that indexing, at the call of
    line 37. *)
Theorem unsupported_indexing_is_fatal py t fontname fontsize e1 rel e2 :
  stored_edges t = e1 ++ Some rel :: e2 →
  indexing rel ≠ "label" → indexing rel ≠ "position" →
  is_ok (make_graph_resolving py t fontname fontsize) = false
  ∧ ∀ rels1,
      viz_installed py = true →
      (∀ k, k ∈ lookup_order (resolved_tree t []) →
            is_Some (stored_subspaces t !! k)) →
      e1 = Some <$> rels1 →
      (∀ r, r ∈ rels1 → supported_indexing (indexing r) = true
                        ∧ parent_data r ∈ lookup_order (resolved_tree t [])) →
      make_graph_resolving py t fontname fontsize
      = Raise (UnsupportedIndexingError (indexing rel)).
Proof.
  intros Hes Hl Hp.
  pose proof (supported_indexing_false _ Hl Hp) as Hix.
  unfold make_graph_resolving. rewrite Hes. split.
  - destruct (viz_installed py); [|done].
    destruct (init_nodes (resolved_tree t [])) as [g0|e]; [|done]. cbn.
    pose proof (for_each_stops e1 (Some rel) e2 g0
                  (λ e g_nodes, rel ← _get_relationship e; add_var rel g_nodes))
      as Hstop.
    destruct (for_each (e1 ++ Some rel :: e2) g0 _) as [g1|e]; [|done].
    discriminate Hstop. intros s'. cbn. by rewrite Hix.
  - intros rels1 -> Hall -> Hrels1.
    destruct (lookups_Ok (resolved_tree t []) _ [] Hall) as [g0 H0].
    rewrite <- init_nodes_as_lookups in H0. rewrite H0. cbn.
    apply init_nodes_lookup_keys in H0 as (_ & Hkeys & _).
    rewrite for_each_app, resolving_vars_loop by (intros r Hr; by apply Hrels1).
    destruct (add_vars_Ok rels1 g0) as [g1 ->].
    { intros r Hr. apply Hkeys. by apply Hrels1. }
    cbn. by rewrite Hix.
Qed.

Lemma unsupported_indexing_is_fatal_witness :
  make_graph_resolving py_fifo stored_nearest "Arial" 12
  = Raise (UnsupportedIndexingError "nearest").
Proof.
  destruct (unsupported_indexing_is_fatal py_fifo stored_nearest "Arial" 12
              [] (mk_rel "A" "idvar" "B" "bid" "nearest") []
              eq_refl ltac:(discriminate) ltac:(discriminate))
    as [_ Hraise].
  apply (Hraise []).
  - reflexivity.
  - intros k Hk. vm_compute in Hk.
    apply elem_of_cons in Hk as [->|Hk]; [vm_compute; by eexists|].
    apply list_elem_of_singleton in Hk as ->. vm_compute. by eexists.
  - reflexivity.
  - intros r Hr. by apply elem_of_nil in Hr.
Defined.

(** X21.  When every edge resolves, that is, when the graph stores for each
    edge a relationship indexed by label or by position, [make_graph] with
    the calls of lines 37 and 133 in place is [make_graph] on the
    relationships the edges resolve to. *)
Theorem resolving_agrees_with_resolved py t fontname fontsize rels :
  stored_edges t = Some <$> rels →
  (∀ r, r ∈ rels → supported_indexing (indexing r) = true) →
  make_graph_resolving py t fontname fontsize
  = make_graph py (resolved_tree t rels) fontname fontsize.
Proof.
  intros Hes Hall. unfold make_graph_resolving, make_graph. rewrite Hes.
  destruct (viz_installed py); [|done].
  change (init_nodes (resolved_tree t rels))
    with (init_nodes (resolved_tree t [])).
  destruct (init_nodes (resolved_tree t [])) as [g0|e]; [|done]. cbn.
  rewrite resolving_vars_loop by done. unfold collect_vars. cbn.
  destruct (for_each rels g0 add_var) as [gn|e]; [|done]. cbn.
  by rewrite resolving_edges_loop.
Qed.

Lemma resolving_agrees_with_resolved_witness :
  make_graph_resolving py_fifo
    {| stored_nodes := ["A"; "B"];
       stored_edges := Some <$> edges (_graph tree_parallel);
       stored_subspaces := subspaces tree_parallel;
       stored_root := Some "A" |} "Arial" 12
  = make_graph py_fifo tree_parallel "Arial" 12.
Proof.
  apply (resolving_agrees_with_resolved py_fifo
           {| stored_nodes := ["A"; "B"];
              stored_edges := Some <$> edges (_graph tree_parallel);
              stored_subspaces := subspaces tree_parallel;
              stored_root := Some "A" |} "Arial" 12
           (edges (_graph tree_parallel))).
  - reflexivity.
  - intros r Hr. apply elem_of_cons in Hr as [->|Hr]; [reflexivity|].
    apply list_elem_of_singleton in Hr as ->. reflexivity.
Defined.

(** ** A child without a subspace *)





(** ** The root of the empty name *)

(** C6, at the input where the code departs from it: the graph has the
    nodes [""] and [B], both with a subspace, and the root is the node of
    the empty name.  Line 24 takes the root name for false and seeds
    nothing, line 30 passes the root over in the loop: the root is not in
    the result at all, where the claim has it first and exactly once. *)
Theorem unnamed_root_is_not_rendered :
  root_node_name tree_unnamed_root = Some EmptyString
  ∧ EmptyString ∈ nodes (_graph tree_unnamed_root)
  ∧ is_Some (subspaces tree_unnamed_root !! EmptyString)
  ∧ seed_root tree_unnamed_root = Ok []
  ∧ ∃ g, make_graph py_fifo tree_unnamed_root "Arial" 12 = Ok g
         ∧ node_ids g = ["B"]
         ∧ EmptyString ∉ node_ids g.
Proof.
  split_and!; [reflexivity | | by eexists | reflexivity |].
  - apply elem_of_cons; left. reflexivity.
  - eexists. split_and!; [vm_compute; reflexivity | reflexivity |].
    intros Hin. apply list_elem_of_singleton in Hin. discriminate Hin.
Qed.

(** ** What a returned graph and a [KeyError] tell *)

(** X1.  [make_graph] returns a graph only if pygraphviz is installed,
    every key of [lookup_order] (the root that line 24 takes for true, and
    the graph nodes other than the root) has a subspace, and the parent of
    every relationship is one of these keys. *)
Theorem make_graph_succeeds_only_if py datatree fontname fontsize g :
  make_graph py datatree fontname fontsize = Ok g →
  viz_installed py = true
  ∧ (∀ k, k ∈ lookup_order datatree → is_Some (subspaces datatree !! k))
  ∧ (∀ rel, rel ∈ edges (_graph datatree) →
            parent_data rel ∈ lookup_order datatree).
Proof.
  intros (Hviz & gn & Hgn & _)%make_graph_Ok.
  apply g_nodes_of_Ok in Hgn as (g0 & H0 & Hcollect & _).
  apply init_nodes_lookup_keys in H0 as (Hall & Hkeys & _).
  split_and!; [done | done |].
  intros rel Hrel. apply Hkeys.
  by apply (add_var_loop_parents _ _ _ _ Hcollect).
Qed.

Lemma make_graph_succeeds_only_if_witness :
  is_Some (subspaces tree_parallel !! "B")
  ∧ "A" ∈ lookup_order tree_parallel.
Proof.
  destruct (make_graph_succeeds_only_if py_fifo tree_parallel "Arial" 12 _
              ltac:(vm_compute; reflexivity)) as (_ & Hall & Hparents).
  split.
  - apply Hall. vm_compute.
    apply elem_of_cons; right. apply list_elem_of_singleton. reflexivity.
  - apply (Hparents (mk_rel "A" "idvar" "B" "bid" "label")).
    apply elem_of_cons; left. reflexivity.
Defined.

(** X2.  A [KeyError] of [make_graph] names its cause: the key is a key of
    [lookup_order] that has no subspace, raised by the first loop; or, all
    these keys having a subspace, it is the parent of a relationship and
    not one of these keys, raised by line 39. *)
Theorem key_error_names_its_cause py datatree fontname fontsize k :
  make_graph py datatree fontname fontsize = Raise (KeyError k) →
  (k ∈ lookup_order datatree ∧ subspaces datatree !! k = None)
  ∨ ((∀ j, j ∈ lookup_order datatree → is_Some (subspaces datatree !! j))
     ∧ k ∉ lookup_order datatree
     ∧ ∃ rel, rel ∈ edges (_graph datatree) ∧ parent_data rel = k).
Proof.
  rewrite make_graph_unfold. destruct (viz_installed py); [|done].
  unfold g_nodes_of, collect_vars.
  destruct (init_nodes datatree) as [g0|e0] eqn:H0; cbn.
  - destruct (for_each _ g0 add_var) as [gn|e1] eqn:Hc; [done|].
    intros [= ->]. right.
    apply add_vars_Raise in Hc as (e1' & rel & e2 & Hes & [= ->] & Hrel & _).
    apply init_nodes_lookup_keys in H0 as (Hall & Hkeys & _).
    split_and!; [done | by rewrite <- Hkeys |].
    exists rel. split; [|done]. rewrite Hes. set_solver.
  - intros [= ->]. left.
    rewrite init_nodes_as_lookups in H0.
    apply lookups_Raise in H0 as (l1 & k' & l2 & Hl & [= ->] & Hk & _).
    split; [|done]. rewrite Hl. set_solver.
Qed.

Lemma key_error_names_its_cause_witness :
  "A" ∉ lookup_order tree_orphan
  ∧ ∃ rel, rel ∈ edges (_graph tree_orphan) ∧ parent_data rel = "A".
Proof.
  destruct (key_error_names_its_cause py_fifo tree_orphan "Arial" 12 "A"
              ltac:(vm_compute; reflexivity))
    as [[Hin _]|(_ & Hnot & Hrel)].
  - vm_compute in Hin. apply list_elem_of_singleton in Hin. discriminate Hin.
  - split; [exact Hnot | exact Hrel].
Defined.
